(** * youtube-mp3-download: the link extractor, the download orchestrator
      and the batch driver, embedded from [backend/server.js] and
      [frontend/src/App.jsx].

    JavaScript strings are sequences of UTF-16 code units; they are
    modelled as [list N].  [Set] and [Map] objects keyed by session
    identifier are stdpp's [gset] and [gmap]; objects whose key order
    matters (CSV records, the directory listing) are association lists. *)

From Stdlib Require Import NArith ZArith Ascii DecimalString.
From stdpp Require Import base decidable option list strings gmap.

Open Scope N_scope.

(** ** JavaScript strings *)

Module JS.

Definition jsstring := list N.

(** A source literal, read as its code units. *)
Definition lit (s : string) : jsstring :=
  N_of_ascii <$> String.list_ascii_of_string s.

(** Truthiness of a string value: only the empty string is falsy. *)
Definition truthy (s : jsstring) : bool :=
  match s with [] => false | _ :: _ => true end.

(** Truthiness of a possibly [undefined] string ([None] is [undefined]). *)
Definition truthy_opt (v : option jsstring) : bool :=
  match v with None => false | Some s => truthy s end.

(** [WhiteSpace] and [LineTerminator] code points of ECMAScript: the set
    used by [String.prototype.trim] and by the regular expression class
    [\s]. *)
Definition isWhiteSpace (c : N) : bool :=
  ((9 <=? c) && (c <=? 13)) || (c =? 32) || (c =? 160) || (c =? 5760)
  || ((8192 <=? c) && (c <=? 8202)) || (c =? 8232) || (c =? 8233)
  || (c =? 8239) || (c =? 8287) || (c =? 12288) || (c =? 65279).

(** The class [\w] (no [i] or [u] flag): [A-Za-z0-9_]. *)
Definition isWord (c : N) : bool :=
  ((48 <=? c) && (c <=? 57)) || ((65 <=? c) && (c <=? 90))
  || ((97 <=? c) && (c <=? 122)) || (c =? 95).

Fixpoint dropWhile (p : N -> bool) (s : jsstring) : jsstring :=
  match s with
  | [] => []
  | c :: t => if p c then dropWhile p t else s
  end.

Definition trimStart (s : jsstring) : jsstring := dropWhile isWhiteSpace s.

Definition trimEnd (s : jsstring) : jsstring :=
  rev (dropWhile isWhiteSpace (rev s)).

(** [s.trim()] *)
Definition trim (s : jsstring) : jsstring := trimEnd (trimStart s).

(** [s.startsWith(p)] *)
Fixpoint startsWith (s p : jsstring) : bool :=
  match p, s with
  | [], _ => true
  | _ :: _, [] => false
  | c :: p', d :: s' => (c =? d) && startsWith s' p'
  end.

(** [s.includes(p)] *)
Fixpoint includes (s p : jsstring) : bool :=
  startsWith s p ||
  match s with
  | [] => false
  | _ :: s' => includes s' p
  end.

(** [s.substring(0, n)] *)
Definition substring0 (n : nat) (s : jsstring) : jsstring := firstn n s.

(** Template-literal rendering of a non-negative integer. *)
Definition decimal (n : N) : jsstring :=
  lit (NilZero.string_of_uint (N.to_uint n)).

(** The ASCII part of [String.prototype.toUpperCase]. *)
Definition asciiUpper (s : jsstring) : jsstring :=
  (fun c => if (97 <=? c) && (c <=? 122) then c - 32 else c) <$> s.

End JS.

Import JS.

(** ** Link extractor: [app.post('/api/parse-csv')] *)

Module LinkExtractor.

(** A record produced by csv-parse with [columns: true]: an object whose
    own keys are the header's field names, in [Object.keys] order. *)
Definition record := list (jsstring * jsstring).

(** [Object.keys(record)] *)
Definition keys (r : record) : list jsstring := fst <$> r.

(** [record[key]]; [None] is [undefined]. *)
Fixpoint get (r : record) (key : jsstring) : option jsstring :=
  match r with
  | [] => None
  | (k, v) :: r' => if decide (k = key) then Some v else get r' key
  end.

(** What iterating the csv-parse parser does: it yields records and then
    either finishes or throws.  csv-parse itself is a dependency, not part
    of the repository; its result is the input of the model. *)
Inductive Parser :=
| Done
| Yield (r : record) (rest : Parser)
| Throw (message : jsstring).

Fixpoint yields (rs : list record) (last : Parser) : Parser :=
  match rs with
  | [] => last
  | r :: rs' => Yield r (yields rs' last)
  end.

Record LinkRecord := { row : N; link : jsstring }.

Inductive Response :=
| Status400 (error : jsstring)
| Json (success : bool) (links : list LinkRecord) (totalLinks : nat)
| Status500 (error details : jsstring).

Definition LINKS : jsstring := lit "LINKS".
Definition youtube_com : jsstring := lit "youtube.com".
Definition youtu_be : jsstring := lit "youtu.be".

Section Handler.

(** [String.prototype.toUpperCase], the engine's Unicode mapping. *)
Variable toUpperCase : jsstring -> jsstring.

(** [key => key.toUpperCase() === 'LINKS'] *)
Definition isLinks (key : jsstring) : bool :=
  bool_decide (toUpperCase key = LINKS).

(** The body of the [for await] loop up to [rowNumber++] (lines 93-107):
    the new value of [links]. *)
Definition visit (rec : record) (links : list LinkRecord) (rowNumber : N)
  : list LinkRecord :=
  match find isLinks (keys rec) with
  | Some linkColumn =>
      if truthy linkColumn && truthy_opt (get rec linkColumn) then
        let link := trim (default [] (get rec linkColumn)) in
        if includes link youtube_com || includes link youtu_be
        then links ++ [{| row := rowNumber; link := link |}]
        else links
      else links
  | None => links
  end.

(** The [for await (const record of parser)] loop (lines 90-109) with its
    two mutable variables; [inl] is the exception the parser threw. *)
Fixpoint consume (parser : Parser) (links : list LinkRecord) (rowNumber : N)
  : jsstring + list LinkRecord :=
  match parser with
  | Done => inr links
  | Throw message => inl message
  | Yield rec rest => consume rest (visit rec links rowNumber) (rowNumber + 1)
  end.

(** The handler (lines 74-124); [file] is [req.file] already handed to
    [parse]. *)
Definition parse_csv (file : option Parser) : Response :=
  match file with
  | None => Status400 (lit "No CSV file uploaded")
  | Some parser =>
      match consume parser [] 2 with
      | inr links => Json true links (length links)
      | inl message => Status500 (lit "Failed to parse CSV file") message
      end
  end.

End Handler.

(** *** The extractor as the specification words it *)

(** The value of a row in a column; an absent field reads as empty. *)
Definition field (r : record) (col : jsstring) : jsstring :=
  default [] (get r col).

(** Non-empty after trimming and containing a recognised host marker. *)
Definition qualifies (v : jsstring) : bool :=
  truthy (trim v) &&
  (includes (trim v) youtube_com || includes (trim v) youtu_be).

(** Rows numbered from [first] on, one number per data row. *)
Fixpoint numbered (first : N) (rows : list record) : list (N * record) :=
  match rows with
  | [] => []
  | r :: rows' => (first, r) :: numbered (first + 1) rows'
  end.

(** A numbered row gives a link record when its value in column [col]
    qualifies; the link is the trimmed value. *)
Definition pick (col : jsstring) (nr : N * record) : option LinkRecord :=
  if qualifies (field nr.2 col)
  then Some {| row := nr.1; link := trim (field nr.2 col) |}
  else None.

(** Select the first header field whose upper-case form is LINKS; none
    gives the empty sequence; otherwise keep the qualifying rows, in order,
    under their row numbers, the first data row being row 2. *)
Definition spec_links (toUpperCase : jsstring -> jsstring)
  (header : list jsstring) (rows : list record) : list LinkRecord :=
  match find (isLinks toUpperCase) header with
  | None => []
  | Some col => omap (pick col) (numbered 2 rows)
  end.

End LinkExtractor.

(** ** Session download orchestrator: [/api/download], [/api/cancel],
       [/api/clear-cancel] *)

Module Orchestrator.

(** *** File names and titles *)

(** [.replace(/[^\w\s-]/g, '')]: every code unit outside the class is
    removed. *)
Definition removeSpecial (s : jsstring) : jsstring :=
  filter (fun c => isWord c || isWhiteSpace c || (c =? 45)) s.

(** [.replace(/\s+/g, '_')]: every maximal run of white space becomes one
    underscore; [inRun] tells that the previous code unit was white space. *)
Fixpoint replaceSpaces (inRun : bool) (s : jsstring) : jsstring :=
  match s with
  | [] => []
  | c :: t =>
      if isWhiteSpace c
      then (if inRun then replaceSpaces true t else 95 :: replaceSpaces true t)
      else c :: replaceSpaces false t
  end.

(** The chain applied to the standard output of [yt-dlp --get-title]
    (lines 199-202). *)
Definition sanitizeTitle (stdout : jsstring) : jsstring :=
  substring0 50 (replaceSpaces false (removeSpecial (trim stdout))).

(** [`audio_${timestamp}`] *)
Definition audioPrefix (timestamp : N) : jsstring :=
  lit "audio_" ++ decimal timestamp.

(** [expectedMp3], as a name inside [TEMP_DIR]. *)
Definition expectedMp3 (timestamp : N) : jsstring :=
  audioPrefix timestamp ++ lit ".mp3".

(** [videoTitle] after the metadata query; [None] is a failed or timed-out
    query, which keeps the default. *)
Definition resolveTitle (timestamp : N) (stdout : option jsstring) : jsstring :=
  match stdout with
  | Some out => sanitizeTitle out
  | None => audioPrefix timestamp
  end.

(** *** [encodeURIComponent] *)

Definition hexDigit (d : N) : N := if d <? 10 then 48 + d else 55 + d.

Definition percent (byte : N) : jsstring :=
  [37; hexDigit (byte / 16); hexDigit (byte mod 16)].

(** [A-Z a-z 0-9 - _ . ! ~ * ' ( )] *)
Definition isUnreserved (c : N) : bool :=
  isWord c || (c =? 45) || (c =? 46) || (c =? 33) || (c =? 126)
  || (c =? 42) || (c =? 39) || (c =? 40) || (c =? 41).

Definition utf8 (cp : N) : list N :=
  if cp <? 128 then [cp]
  else if cp <? 2048 then [192 + cp / 64; 128 + cp mod 64]
  else if cp <? 65536 then
    [224 + cp / 4096; 128 + (cp / 64) mod 64; 128 + cp mod 64]
  else
    [240 + cp / 262144; 128 + (cp / 4096) mod 64;
     128 + (cp / 64) mod 64; 128 + cp mod 64].

Definition isHighSurrogate (c : N) : bool := (55296 <=? c) && (c <=? 56319).
Definition isLowSurrogate (c : N) : bool := (56320 <=? c) && (c <=? 57343).

(** [None] is the [URIError] thrown on a lone surrogate. *)
Fixpoint encodeURIComponent (s : jsstring) : option jsstring :=
  match s with
  | [] => Some []
  | c :: t =>
      if isUnreserved c then cons c <$> encodeURIComponent t
      else if isLowSurrogate c then None
      else if isHighSurrogate c then
        match t with
        | d :: t' =>
            if isLowSurrogate d then
              app (utf8 (65536 + (c - 55296) * 1024 + (d - 56320)) ≫= percent)
                <$> encodeURIComponent t'
            else None
        | [] => None
        end
      else app (utf8 c ≫= percent) <$> encodeURIComponent t
  end.

(** *** The temp directory *)

(** [TEMP_DIR]: file names with their sizes, in [readdirSync] order. *)
Definition Dir := list (jsstring * N).

Definition names (d : Dir) : list jsstring := fst <$> d.

(** [fs.existsSync(path.join(TEMP_DIR, name))] *)
Definition existsSync (d : Dir) (name : jsstring) : bool :=
  bool_decide (name ∈ names d).

(** [fs.statSync(...).size] *)
Fixpoint statSize (d : Dir) (name : jsstring) : option N :=
  match d with
  | [] => None
  | (n, size) :: d' => if decide (n = name) then Some size else statSize d' name
  end.

(** [fs.unlinkSync] *)
Definition unlinkSync (d : Dir) (name : jsstring) : Dir :=
  filter (fun e => e.1 ≠ name) d.

(** [fs.renameSync(old, new)]: an existing [new] is replaced. *)
Definition renameSync (d : Dir) (old new : jsstring) : Dir :=
  (fun e : jsstring * N => if decide (e.1 = old) then (new, e.2) else e)
    <$> unlinkSync d new.

(** A file written by the external tool: created, or overwritten in place. *)
Definition writeFile (d : Dir) (f : jsstring * N) : Dir :=
  if existsSync d f.1
  then (fun e : jsstring * N => if decide (e.1 = f.1) then f else e) <$> d
  else d ++ [f].

(** [cleanup(file)]: unlink when the file exists. *)
Definition cleanupFile (d : Dir) (name : jsstring) : Dir :=
  if existsSync d name then unlinkSync d name else d.

(** *** Server state *)

(** The module-level state of [server.js].  A session identifier is
    [req.body.sessionId]: [None] is [undefined] (the field is absent).
    A child-process handle is identified by a number; [killed] holds the
    handles whose [.killed] flag is set, [exited] those whose process is
    gone.  [timers] are the pending [setTimeout] callbacks with the time
    they are due, [now] is the clock in milliseconds. *)
Record Server := mkServer {
  cancelledSessions : gset (option jsstring);
  activeProcesses : gmap (option jsstring) N;
  killed : gset N;
  exited : gset N;
  tempDir : Dir;
  timers : list (N * option jsstring);
  now : N;
  nextPid : N
}.

Definition withCancelled (c : gset (option jsstring)) (s : Server) : Server :=
  mkServer c (activeProcesses s) (killed s) (exited s) (tempDir s)
           (timers s) (now s) (nextPid s).

Definition withActive (a : gmap (option jsstring) N) (s : Server) : Server :=
  mkServer (cancelledSessions s) a (killed s) (exited s) (tempDir s)
           (timers s) (now s) (nextPid s).

Definition withKilled (k : gset N) (s : Server) : Server :=
  mkServer (cancelledSessions s) (activeProcesses s) k (exited s) (tempDir s)
           (timers s) (now s) (nextPid s).

Definition withExited (x : gset N) (s : Server) : Server :=
  mkServer (cancelledSessions s) (activeProcesses s) (killed s) x (tempDir s)
           (timers s) (now s) (nextPid s).

Definition withTemp (d : Dir) (s : Server) : Server :=
  mkServer (cancelledSessions s) (activeProcesses s) (killed s) (exited s) d
           (timers s) (now s) (nextPid s).

Definition withTimers (t : list (N * option jsstring)) (s : Server) : Server :=
  mkServer (cancelledSessions s) (activeProcesses s) (killed s) (exited s)
           (tempDir s) t (now s) (nextPid s).

Definition withNow (t : N) (s : Server) : Server :=
  mkServer (cancelledSessions s) (activeProcesses s) (killed s) (exited s)
           (tempDir s) (timers s) t (nextPid s).

Definition withNextPid (p : N) (s : Server) : Server :=
  mkServer (cancelledSessions s) (activeProcesses s) (killed s) (exited s)
           (tempDir s) (timers s) (now s) p.

(** The server right after start-up at time [t0], its temp directory
    empty, as [cleanupTempDir] leaves it when no entry resists. *)
Definition initial (t0 : N) : Server :=
  mkServer ∅ ∅ ∅ ∅ [] [] t0 0.

(** [cancelledSessions.has(sessionId)] *)
Definition isCancelled (sessionId : option jsstring) (s : Server) : bool :=
  bool_decide (sessionId ∈ cancelledSessions s).

(** [proc.kill(...)]: the flag is set when the signal could be sent, that
    is when the process has not exited yet. *)
Definition kill (p : N) (s : Server) : Server :=
  if bool_decide (p ∈ exited s) then s else withKilled ({[p]} ∪ killed s) s.

(** [cleanup(expectedMp3)] *)
Definition cleanup (timestamp : N) (s : Server) : Server :=
  withTemp (cleanupFile (tempDir s) (expectedMp3 timestamp)) s.

(** *** Requests, responses and the suspended handler *)

Record Request := { url : option jsstring; sessionId : option jsstring }.

(** [Audio] is the 200 response: [X-Filename] and [Content-Length]
    headers, content type [audio/mpeg], then the piped file. *)
Inductive Response :=
| Status400 (error : jsstring)
| Status499 (error : jsstring)
| Status500 (error details : jsstring)
| Audio (xFilename : jsstring) (contentLength : N).

(** Where the [async] handler is suspended, with the local variables it
    still needs. *)
Inductive Await :=
| AwaitTitle (sessionId : option jsstring) (timestamp : N)
| AwaitClose (sessionId : option jsstring) (timestamp : N)
             (videoTitle : jsstring) (downloadProcess : N)
| AwaitStream (timestamp : N).

(** What wakes it up.  [TitleQuery None] is a failed or timed-out
    [yt-dlp --get-title]; [ChildClose code stderr written] is the ['close']
    event, [code] being [None] when a signal ended the process and
    [written] the files the tool has left in [TEMP_DIR]; [ChildError] is
    the ['error'] event of a process that could not be spawned. *)
Inductive Event :=
| TitleQuery (stdout : option jsstring)
| ChildClose (code : option N) (stderr : jsstring) (written : Dir)
| ChildError (message : jsstring)
| StreamEnd
| StreamError.

(** A segment of the handler ends with a response sent, a suspension, or
    both (headers sent, stream running). *)
Definition Result : Type := option Response * option Await.

Definition cancelledReply : Result :=
  (Some (Status499 (lit "Download cancelled by user")), None).

(** The [catch] block of the handler (lines 313-330).  No exception is
    raised once the headers are sent, so the 500 response is always sent. *)
Definition catchBlock (downloadProcess : option N) (timestamp : N)
  (message : jsstring) (s : Server) : Server * Result :=
  let s1 := match downloadProcess with
            | Some p => if bool_decide (p ∈ killed s) then s else kill p s
            | None => s
            end in
  (cleanup timestamp s1,
   (Some (Status500 (lit "Failed to download/convert video") message), None)).

(** From the request's arrival to the first [await] (lines 171-195). *)
Definition download (req : Request) (s : Server) : Server * Result :=
  if negb (truthy_opt (url req)) then
    (s, (Some (Status400 (lit "URL is required")), None))
  else
    let timestamp := now s in
    if isCancelled (sessionId req) s then (s, cancelledReply)
    else (s, (None, Some (AwaitTitle (sessionId req) timestamp))).

(** The check that the file exists (lines 266-278): the directory it
    leaves, or [None] when it throws ['MP3 file was not created'].  A missing file is looked
    for under another name with the same prefix and renamed. *)
Definition fileCheck (timestamp : N) (d : Dir) : option Dir :=
  if existsSync d (expectedMp3 timestamp) then Some d
  else
    match filter (fun f => startsWith f (audioPrefix timestamp)) (names d) with
    | [] => None
    | actualFile :: _ =>
        Some (if decide (actualFile = expectedMp3 timestamp) then d
              else renameSync d actualFile (expectedMp3 timestamp))
    end.

(** The file that check settles on (lines 267-271): [expectedMp3] when it
    exists, else [actualFile], the first entry of the listing that carries
    the prefix; [None] when there is neither. *)
Definition foundFile (timestamp : N) (d : Dir) : option jsstring :=
  if existsSync d (expectedMp3 timestamp) then Some (expectedMp3 timestamp)
  else head (filter (fun f => startsWith f (audioPrefix timestamp)) (names d)).

(** The file check, the last cancellation check and the response headers
    (lines 266-300): what follows the awaited subprocess when it resolved. *)
Definition afterDownload (sessionId : option jsstring) (timestamp : N)
  (videoTitle : jsstring) (downloadProcess : N) (s : Server)
  : Server * Result :=
  match fileCheck timestamp (tempDir s) with
  | None =>
      catchBlock (Some downloadProcess) timestamp
                 (lit "MP3 file was not created") s
  | Some d =>
      let s1 := withTemp d s in
      if isCancelled sessionId s1 then (cleanup timestamp s1, cancelledReply)
      else
        match encodeURIComponent (videoTitle ++ lit ".mp3") with
        | None =>
            catchBlock (Some downloadProcess) timestamp
                       (lit "URI malformed") s1
        | Some xFilename =>
            match statSize d (expectedMp3 timestamp) with
            | None =>
                catchBlock (Some downloadProcess) timestamp
                           (lit "ENOENT: no such file or directory") s1
            | Some size =>
                (s1, (Some (Audio xFilename size),
                      Some (AwaitStream timestamp)))
            end
        end
  end.

(** [`yt-dlp exited with code ${code}: ${stderr}`] *)
Definition exitMessage (code : option N) (stderr : jsstring) : jsstring :=
  lit "yt-dlp exited with code "
  ++ match code with Some c => decimal c | None => lit "null" end
  ++ lit ": " ++ stderr.

(** The process is gone and its files are on disk. *)
Definition childGone (p : N) (written : Dir) (s : Server) : Server :=
  withExited ({[p]} ∪ exited s) (withTemp (foldl writeFile (tempDir s) written) s).

(** The first statement of the ['close'] and ['error'] listeners, run on
    the state the process has left:
    [activeProcesses.delete(sessionId)]. *)
Definition closed (sessionId : option jsstring) (p : N) (written : Dir)
  (s : Server) : Server :=
  withActive (delete sessionId (activeProcesses s)) (childGone p written s).

(** The handler resumed by an event: after the metadata query (lines
    199-234), by the ['close'] and ['error'] listeners (lines 249-263), by
    the stream's ['end'] and ['error'] listeners (lines 303-311). *)
Definition resume (k : Await) (e : Event) (s : Server) : Server * Result :=
  match k, e with
  | AwaitTitle sessionId timestamp, TitleQuery stdout =>
      let videoTitle := resolveTitle timestamp stdout in
      if isCancelled sessionId s then (s, cancelledReply)
      else
        let downloadProcess := nextPid s in
        let s1 := withNextPid (downloadProcess + 1) s in
        let s2 := if truthy_opt sessionId
                  then withActive (<[sessionId := downloadProcess]>
                                     (activeProcesses s1)) s1
                  else s1 in
        (s2, (None, Some (AwaitClose sessionId timestamp videoTitle
                                     downloadProcess)))
  | AwaitClose sessionId timestamp videoTitle p, ChildClose code stderr written =>
      let s1 := closed sessionId p written s in
      match code with
      | Some 0 => afterDownload sessionId timestamp videoTitle p s1
      | _ => catchBlock (Some p) timestamp (exitMessage code stderr) s1
      end
  | AwaitClose sessionId timestamp videoTitle p, ChildError message =>
      catchBlock (Some p) timestamp message (closed sessionId p [] s)
  | AwaitStream timestamp, StreamEnd => (cleanup timestamp s, (None, None))
  | AwaitStream timestamp, StreamError => (cleanup timestamp s, (None, None))
  | _, _ => (s, (None, Some k))
  end.

(** *** Cancellation *)

Definition fiveMinutes : N := 5 * 60 * 1000.

(** [app.post('/api/cancel')] (lines 337-355) *)
Definition cancel (sessionId : option jsstring) (s : Server) : Server :=
  if truthy_opt sessionId then
    let s1 := withCancelled ({[sessionId]} ∪ cancelledSessions s) s in
    let s2 := match activeProcesses s1 !! sessionId with
              | Some process =>
                  if bool_decide (process ∈ killed s1) then s1
                  else kill process s1
              | None => s1
              end in
    withTimers (timers s2 ++ [(now s2 + fiveMinutes, sessionId)]) s2
  else s.

(** [app.post('/api/clear-cancel')] (lines 361-369) *)
Definition clearCancel (sessionId : option jsstring) (s : Server) : Server :=
  if truthy_opt sessionId
  then withCancelled (cancelledSessions s ∖ {[sessionId]}) s
  else s.

(** A timer callback: [() => cancelledSessions.delete(sessionId)]. *)
Definition fire (s : Server) (t : N * option jsstring) : Server :=
  withCancelled (cancelledSessions s ∖ {[t.2]}) s.

(** Time passes up to [t]: the timers due by then run, in the order they
    were set, and leave the queue. *)
Definition advance (t : N) (s : Server) : Server :=
  let due := filter (fun x : N * option jsstring => x.1 <= t) (timers s) in
  let later := filter (fun x : N * option jsstring => ¬ x.1 <= t) (timers s) in
  withNow (N.max (now s) t) (withTimers later (foldl fire s due)).

(** *** Interleavings *)

(** Everything that can happen to the server between two segments of a
    handler. *)
Inductive Op :=
| OpCancel (sessionId : option jsstring)
| OpClearCancel (sessionId : option jsstring)
| OpAdvance (t : N)
| OpDownload (req : Request)
| OpResume (k : Await) (e : Event).

Definition apply (s : Server) (o : Op) : Server :=
  match o with
  | OpCancel sid => cancel sid s
  | OpClearCancel sid => clearCancel sid s
  | OpAdvance t => advance t s
  | OpDownload req => (download req s).1
  | OpResume k e => (resume k e s).1
  end.

Definition run (ops : list Op) (s : Server) : Server := foldl apply s ops.

(** One download attempt run to its end with nothing else happening on
    the server: the events wake the handler up in order; the result is the
    final state and the response sent. *)
Fixpoint feed (events : list Event) (s : Server) (sent : option Response)
  (k : option Await) : Server * option Response :=
  match events, k with
  | e :: events', Some k0 =>
      let r := resume k0 e s in
      feed events' r.1 (match sent with Some _ => sent | None => r.2.1 end) r.2.2
  | _, _ => (s, sent)
  end.

Definition attempt (req : Request) (events : list Event) (s : Server)
  : Server * option Response :=
  let r := download req s in feed events r.1 r.2.1 r.2.2.

(** The tool has left a file under the attempt's prefix: the file check
    of the handler finds something to send. *)
Definition fileProduced (timestamp : N) (d : Dir) : bool :=
  existsb (fun f => startsWith f (audioPrefix timestamp)) (names d).

(** Code units a resolved title is made of: [A-Za-z0-9_-]. *)
Definition isTitleUnit (c : N) : bool := isWord c || (c =? 45).

(** *** The file name as the specification words it *)

Definition isAlphanumeric (c : N) : bool :=
  ((48 <=? c) && (c <=? 57)) || ((65 <=? c) && (c <=? 90))
  || ((97 <=? c) && (c <=? 122)).

(** Every non-alphanumeric character replaced with an underscore, the
    first 50 characters kept, [.mp3] appended. *)
Definition spec_filename (title : jsstring) : jsstring :=
  firstn 50 ((fun c => if isAlphanumeric c then c else 95) <$> title)
  ++ lit ".mp3".

(** What the code maintains: only truthy identifiers are ever marked or
    tracked, and tracked handles have been spawned. *)
Definition wf (s : Server) : Prop :=
  (∀ sid, sid ∈ cancelledSessions s → truthy_opt sid = true) ∧
  (∀ sid p, activeProcesses s !! sid = Some p →
            truthy_opt sid = true ∧ p < nextPid s).

End Orchestrator.

(** ** Batch driver: [downloadSingle] and [startProcessing] of [App.jsx] *)

Module BatchDriver.

Inductive Status := PENDING | DOWNLOADING | CONVERTING | SAVED | FAILED | CANCELLED.

(** An element of the [links] state: [{row, link, status, error}]. *)
Record Item := mkItem {
  row : N;
  link : jsstring;
  status : Status;
  error : option jsstring
}.

(** What [await fetch('/api/download', ...)] gives: a rejection (the
    network failed) or the server's response. *)
Inductive Fetched :=
| Rejected (message : jsstring)
| Responded (r : Orchestrator.Response).

(** What one iteration of the loop meets.  The three flags tell whether
    the user pressed the cancel button ([cancelledRef.current = true])
    while the request was awaited, while the body was read, and during the
    one-second pause. *)
Record Env := mkEnv {
  fetched : Fetched;
  cancelDuringFetch : bool;
  blobError : option jsstring;
  cancelDuringBody : bool;
  cancelDuringDelay : bool
}.

(** The component's state as far as the batch is concerned, with a log of
    the download requests issued and a count of the pauses taken. *)
Record State := mkState {
  links : list Item;
  cancelledRef : bool;
  requests : list Orchestrator.Request;
  delays : nat
}.

(** [setLinks(prev => prev.map((l, i) => i === index ? {...l, status} : l))] *)
Definition setStatus (index : nat) (st : Status) (ls : list Item) : list Item :=
  imap (fun i l => if decide (i = index)
                   then mkItem (row l) (link l) st (error l) else l) ls.

(** The same with an [error] field. *)
Definition setStatusError (index : nat) (st : Status) (err : jsstring)
  (ls : list Item) : list Item :=
  imap (fun i l => if decide (i = index)
                   then mkItem (row l) (link l) st (Some err) else l) ls.

(** [response.ok] *)
Definition ok (r : Orchestrator.Response) : bool :=
  match r with Orchestrator.Audio _ _ => true | _ => false end.

(** [errorData.details || errorData.error || 'Download failed'] *)
Definition errorMessage (r : Orchestrator.Response) : jsstring :=
  match r with
  | Orchestrator.Status500 e d =>
      if truthy d then d else if truthy e then e else lit "Download failed"
  | Orchestrator.Status400 e | Orchestrator.Status499 e =>
      if truthy e then e else lit "Download failed"
  | Orchestrator.Audio _ _ => lit "Download failed"
  end.

Definition cancelledByUser : jsstring := lit "Cancelled by user".

(** [downloadSingle(index)] (lines 95-165); [item] is [links[index]] of
    the render the batch was started from. *)
Definition downloadSingle (sessionId : jsstring) (item : Item) (index : nat)
  (env : Env) (s : State) : State :=
  let s1 := mkState (setStatus index DOWNLOADING (links s)) (cancelledRef s)
              (requests s ++ [Orchestrator.Build_Request (Some (link item))
                                                         (Some sessionId)])
              (delays s) in
  let cancelled := cancelledRef s1 || cancelDuringFetch env in
  match fetched env with
  | Rejected message =>
      mkState (setStatusError index FAILED message (links s1)) cancelled
              (requests s1) (delays s1)
  | Responded r =>
      if cancelled then
        mkState (setStatusError index CANCELLED cancelledByUser (links s1))
                cancelled (requests s1) (delays s1)
      else if negb (ok r) then
        mkState (setStatusError index FAILED (errorMessage r) (links s1))
                cancelled (requests s1) (delays s1)
      else
        let converting := setStatus index CONVERTING (links s1) in
        match blobError env with
        | Some message =>
            mkState (setStatusError index FAILED message converting)
                    (cancelled || cancelDuringBody env)
                    (requests s1) (delays s1)
        | None =>
            mkState (setStatus index SAVED converting)
                    (cancelled || cancelDuringBody env)
                    (requests s1) (delays s1)
        end
  end.

(** [prev.map((l, idx) => idx >= i ? {...l, status: CANCELLED, ...} : l)] *)
Definition cancelFrom (i : nat) (ls : list Item) : list Item :=
  imap (fun idx l => if decide (i ≤ idx)%nat
                     then mkItem (row l) (link l) CANCELLED (Some cancelledByUser)
                     else l) ls.

(** The [for] loop (lines 191-208) from index [i] on, [todo] being
    [links.length - i]; [items] is the [links] array the closure captured. *)
Fixpoint loop (sessionId : jsstring) (items : list Item) (env : nat -> Env)
  (todo : nat) (i : nat) (s : State) : State :=
  match todo with
  | O => s
  | S todo' =>
      if cancelledRef s then
        mkState (cancelFrom i (links s)) (cancelledRef s) (requests s) (delays s)
      else
        match items !! i with
        | None => s
        | Some item =>
            let s1 := downloadSingle sessionId item i (env i) s in
            let s2 :=
              if bool_decide (i < length items - 1)%nat && negb (cancelledRef s1)
              then mkState (links s1)
                           (cancelledRef s1 || cancelDuringDelay (env i))
                           (requests s1) (S (delays s1))
              else s1 in
            loop sessionId items env todo' (S i) s2
        end
  end.

(** [startProcessing()] (lines 170-213), once the clear-cancel request has
    been answered;
    [cancelDuringClear] tells whether the user pressed cancel while it was
    awaited. *)
Definition startProcessing (sessionId : jsstring) (cancelDuringClear : bool)
  (env : nat -> Env) (s : State) : State :=
  match links s with
  | [] => s
  | _ :: _ =>
      let pending := (fun l => mkItem (row l) (link l) PENDING None) <$> links s in
      loop sessionId (links s) env (length (links s)) 0
           (mkState pending cancelDuringClear (requests s) (delays s))
  end.

(** The terminal status a link gets from its own response when nobody
    cancels. *)
Definition outcome (env : Env) : Status :=
  match fetched env with
  | Rejected _ => FAILED
  | Responded r =>
      if ok r then match blobError env with Some _ => FAILED | None => SAVED end
      else FAILED
  end.

(** Nobody presses cancel during the batch. *)
Definition neverCancelled (env : nat -> Env) : Prop :=
  ∀ i, cancelDuringFetch (env i) = false ∧ cancelDuringBody (env i) = false
       ∧ cancelDuringDelay (env i) = false.

End BatchDriver.

(** * Properties *)

(** ** JavaScript strings *)

Module JSFacts.

Lemma dropWhile_nil p : dropWhile p [] = [].
Proof. reflexivity. Qed.

Lemma trim_nil : trim [] = [].
Proof. reflexivity. Qed.

(** Only the empty pattern is found in the empty string. *)
Lemma includes_nil p : includes [] p = true → p = [].
Proof. destruct p; simpl; [done | discriminate]. Qed.

Lemma includes_truthy s p : p ≠ [] → includes s p = true → truthy s = true.
Proof.
  intros Hp Hin. destruct s as [|c s]; [|done].
  by apply includes_nil in Hin.
Qed.

(** Trimming never makes a string out of nothing. *)
Lemma trim_truthy s : truthy (trim s) = true → truthy s = true.
Proof. destruct s; [discriminate | done]. Qed.

End JSFacts.

(** ** Link extractor *)

Module LinkExtractorSpec.

Import LinkExtractor JSFacts.

Section Extractor.

Variable toUpperCase : jsstring -> jsstring.

Lemma get_keys (r : record) (k : jsstring) :
  k ∈ keys r → ∃ v, get r k = Some v.
Proof.
  induction r as [|[k' v'] r IH]; simpl.
  - by intros ?%elem_of_nil.
  - intros [->|Hin]%elem_of_cons; case_decide; eauto; congruence.
Qed.

(** The body of the loop appends what the specification picks. *)
Lemma visit_pick (col : jsstring) (r : record) (links : list LinkRecord) (n : N) :
  truthy col = true →
  find (isLinks toUpperCase) (keys r) = Some col →
  visit toUpperCase r links n = links ++ from_option (λ x, [x]) [] (pick col (n, r)).
Proof.
  intros Hcol Hfind. unfold visit, pick, qualifies, field. rewrite Hfind, Hcol.
  simpl. destruct (get r col) as [v|] eqn:Hget; simpl.
  - destruct (includes (trim v) youtube_com || includes (trim v) youtu_be) eqn:Hinc.
    + assert (truthy (trim v) = true) as Htv.
      { apply orb_true_iff in Hinc as [H|H];
          eapply includes_truthy in H; done. }
      rewrite Htv, (trim_truthy _ Htv). done.
    + rewrite andb_false_r. destruct (truthy v); simpl; by rewrite app_nil_r.
  - by rewrite app_nil_r.
Qed.

Lemma visit_no_column (r : record) (links : list LinkRecord) (n : N) :
  find (isLinks toUpperCase) (keys r) = None →
  visit toUpperCase r links n = links.
Proof. intros Hfind. unfold visit. by rewrite Hfind. Qed.

Lemma consume_yields_done (col : jsstring) (header : list jsstring)
  (rows : list record) (links : list LinkRecord) (n : N) :
  truthy col = true →
  find (isLinks toUpperCase) header = Some col →
  Forall (λ r, keys r = header) rows →
  consume toUpperCase (yields rows Done) links n
  = inr (links ++ omap (pick col) (numbered n rows)).
Proof.
  intros Hcol Hfind Hrows. revert links n.
  induction Hrows as [|r rows Hr _ IH]; intros links n; simpl.
  - by rewrite app_nil_r.
  - rewrite IH, (visit_pick col); [|done|by rewrite Hr].
    destruct (pick col (n, r)); simpl; [by rewrite <- app_assoc | by rewrite app_nil_r].
Qed.

Lemma consume_yields_throw (rows : list record) (message : jsstring)
  (links : list LinkRecord) (n : N) :
  consume toUpperCase (yields rows (Throw message)) links n = inl message.
Proof. revert links n. induction rows as [|r rows IH]; intros; simpl; auto. Qed.

Lemma find_isLinks_none (header : list jsstring) :
  (∀ k, k ∈ header → toUpperCase k ≠ LINKS) →
  find (isLinks toUpperCase) header = None.
Proof.
  induction header as [|k header IH]; intros Hno; simpl; [done|].
  unfold isLinks at 1. rewrite bool_decide_eq_false_2 by (apply Hno; set_solver).
  apply IH. intros k' Hk'. apply Hno. set_solver.
Qed.

Lemma find_isLinks_some (header : list jsstring) :
  (∃ k, k ∈ header ∧ toUpperCase k = LINKS) →
  ∃ col, find (isLinks toUpperCase) header = Some col ∧ toUpperCase col = LINKS.
Proof.
  induction header as [|k header IH]; intros (k' & Hin & Hup).
  - by apply elem_of_nil in Hin.
  - simpl. unfold isLinks at 1. case_bool_decide as Hk; [by eauto|].
    apply IH. exists k'. split; [|done].
    apply elem_of_cons in Hin as [->|]; done.
Qed.

(** Every parser run is a sequence of records followed by the end or by
    an exception. *)
Lemma parser_shape (p : Parser) :
  ∃ rows, p = yields rows Done ∨ ∃ message, p = yields rows (Throw message).
Proof.
  induction p as [|r rest [rows IH]|message].
  - exists []. by left.
  - exists (r :: rows). destruct IH as [->|[m ->]]; [by left | right; by exists m].
  - exists []. right. by exists message.
Qed.

Lemma consume_no_column (rows : list record) (links : list LinkRecord) (n : N) :
  Forall (λ r, find (isLinks toUpperCase) (keys r) = None) rows →
  consume toUpperCase (yields rows Done) links n = inr links.
Proof.
  intros Hrows. revert links n.
  induction Hrows as [|r rows Hr _ IH]; intros links n; simpl; [done|].
  by rewrite visit_no_column, IH.
Qed.

(** Row numbers count every data row from 2 on. *)
Lemma numbered_lookup (rows : list record) (first : N) (i : nat) (r : record) :
  rows !! i = Some r → numbered first rows !! i = Some (first + N.of_nat i, r).
Proof.
  revert first i. induction rows as [|r' rows IH]; intros first i; [done|].
  destruct i as [|i]; simpl.
  - intros [= ->]. by rewrite N.add_0_r.
  - intros Hi. rewrite (IH _ _ Hi). do 2 f_equal. lia.
Qed.

(** C1. For a CSV whose header has a field that upper-cases to LINKS and
    that the parser reads to the end, the handler answers with success and
    exactly the rows whose value in the first such column is non-empty
    after trimming and contains youtube.com or youtu.be, as [{row, link}]
    records in input order; [row] starts at 2 and counts every data row,
    the skipped ones included, and [link] is the trimmed value. *)
Theorem parse_csv_returns_qualifying_rows
  (header : list jsstring) (rows : list record) :
  toUpperCase [] = [] →
  (∃ k, k ∈ header ∧ toUpperCase k = LINKS) →
  Forall (λ r, keys r = header) rows →
  parse_csv toUpperCase (Some (yields rows Done))
  = Json true (spec_links toUpperCase header rows)
         (length (spec_links toUpperCase header rows)).
Proof.
  intros Hnil Hex Hrows.
  destruct (find_isLinks_some header Hex) as (col & Hfind & Hup).
  assert (truthy col = true) as Hcol.
  { destruct col; [|done]. rewrite Hnil in Hup. discriminate. }
  unfold parse_csv, spec_links. rewrite Hfind.
  by rewrite (consume_yields_done col header).
Qed.

(** C5. For a CSV the parser reads to the end and whose header has no
    field that upper-cases to LINKS, the handler answers with success and
    an empty list of links. *)
Theorem parse_csv_without_links_column
  (header : list jsstring) (rows : list record) :
  (∀ k, k ∈ header → toUpperCase k ≠ LINKS) →
  Forall (λ r, keys r = header) rows →
  parse_csv toUpperCase (Some (yields rows Done)) = Json true [] 0.
Proof.
  intros Hno Hrows. unfold parse_csv.
  rewrite consume_no_column; [done|].
  eapply Forall_impl; [exact Hrows|]. intros r ->. simpl.
  by apply find_isLinks_none.
Qed.

(** C6. When the parser throws, after any number of records, the handler
    answers with status 500, the parser's message as [details], and no
    list of links. *)
Theorem parse_csv_malformed (rows : list record) (message : jsstring) :
  parse_csv toUpperCase (Some (yields rows (Throw message)))
  = Status500 (lit "Failed to parse CSV file") message.
Proof. unfold parse_csv. by rewrite consume_yields_throw. Qed.

End Extractor.

Definition sampleHeader : list jsstring := [lit "name"; lit "Links"].

Definition sampleRows : list record :=
  [ [(lit "name", lit "first"); (lit "Links", lit "https://youtu.be/abc")];
    [(lit "name", lit "second"); (lit "Links", lit "cats playing piano")];
    [(lit "name", lit "third"); (lit "Links", lit "https://www.youtube.com/watch?v=1")] ].

Lemma parse_csv_returns_qualifying_rows_witness :
  parse_csv asciiUpper (Some (yields sampleRows Done))
  = Json true
      [ {| row := 2; link := lit "https://youtu.be/abc" |};
        {| row := 4; link := lit "https://www.youtube.com/watch?v=1" |} ] 2.
Proof.
  rewrite (parse_csv_returns_qualifying_rows asciiUpper sampleHeader sampleRows).
  - vm_compute. reflexivity.
  - reflexivity.
  - exists (lit "Links"). split; [|reflexivity].
    apply list_elem_of_further, list_elem_of_here.
  - repeat constructor.
Defined.

Definition plainHeader : list jsstring := [lit "name"; lit "url"].

Definition plainRows : list record :=
  [ [(lit "name", lit "first"); (lit "url", lit "https://youtu.be/abc")] ].

Lemma parse_csv_without_links_column_witness :
  parse_csv asciiUpper (Some (yields plainRows Done)) = Json true [] 0.
Proof.
  apply (parse_csv_without_links_column asciiUpper plainHeader plainRows).
  - intros k Hk.
    apply elem_of_cons in Hk as [->|Hk]; [vm_compute; discriminate|].
    apply elem_of_cons in Hk as [->|Hk]; [vm_compute; discriminate|].
    by apply elem_of_nil in Hk.
  - repeat constructor.
Defined.

End LinkExtractorSpec.

(** ** Orchestrator: file names and the temp directory *)

Module OrchestratorFacts.

Import Orchestrator.

Lemma isTitleUnit_unreserved c : isTitleUnit c = true → isUnreserved c = true.
Proof.
  unfold isTitleUnit, isUnreserved. intros [->| ->]%orb_true_iff; [done|].
  by rewrite orb_true_r.
Qed.

Lemma encodeURIComponent_unreserved (s : jsstring) :
  Forall (λ c, isUnreserved c = true) s → encodeURIComponent s = Some s.
Proof.
  induction 1 as [|c s Hc _ IH]; simpl; [done|]. by rewrite Hc, IH.
Qed.

Lemma replaceSpaces_units (s : jsstring) (inRun : bool) :
  Forall (λ c, isWord c || isWhiteSpace c || (c =? 45) = true) s →
  Forall (λ c, isTitleUnit c = true) (replaceSpaces inRun s).
Proof.
  intros Hs. revert inRun. induction Hs as [|c s Hc _ IH]; intros inRun; simpl.
  - constructor.
  - destruct (isWhiteSpace c) eqn:Hws.
    + destruct inRun; [apply IH | constructor; [done | apply IH]].
    + constructor; [|apply IH]. unfold isTitleUnit.
      rewrite orb_false_r in Hc. exact Hc.
Qed.

Lemma removeSpecial_units (s : jsstring) :
  Forall (λ c, isWord c || isWhiteSpace c || (c =? 45) = true) (removeSpecial s).
Proof.
  unfold removeSpecial. apply Forall_forall. intros c Hc.
  apply list_elem_of_filter in Hc as [Hc _]. by apply Is_true_true.
Qed.

Lemma sanitizeTitle_units (stdout : jsstring) :
  Forall (λ c, isTitleUnit c = true) (sanitizeTitle stdout).
Proof.
  unfold sanitizeTitle, substring0. apply Forall_take, replaceSpaces_units,
    removeSpecial_units.
Qed.

Lemma sanitizeTitle_length (stdout : jsstring) :
  (length (sanitizeTitle stdout) ≤ 50)%nat.
Proof. unfold sanitizeTitle, substring0. rewrite length_firstn. lia. Qed.

Lemma lit_cons (a : ascii) (s : string) : lit (String a s) = N_of_ascii a :: lit s.
Proof. reflexivity. Qed.

Lemma digits_units (d : Decimal.uint) :
  Forall (λ c, isTitleUnit c = true) (lit (NilEmpty.string_of_uint d)).
Proof.
  induction d; simpl; try rewrite lit_cons; constructor; done.
Qed.

Lemma decimal_units (n : N) : Forall (λ c, isTitleUnit c = true) (decimal n).
Proof.
  unfold decimal, NilZero.string_of_uint.
  destruct (N.to_uint n) eqn:E; try apply digits_units.
  repeat constructor.
Qed.

Lemma resolveTitle_units (timestamp : N) (stdout : option jsstring) :
  Forall (λ c, isTitleUnit c = true) (resolveTitle timestamp stdout).
Proof.
  destruct stdout as [out|]; simpl; [apply sanitizeTitle_units|].
  unfold audioPrefix. apply Forall_app. split; [|apply decimal_units].
  vm_compute. repeat constructor.
Qed.

(** The header value is the file name itself: nothing in it needs
    escaping. *)
Lemma encode_filename (timestamp : N) (stdout : option jsstring) :
  encodeURIComponent (resolveTitle timestamp stdout ++ lit ".mp3")
  = Some (resolveTitle timestamp stdout ++ lit ".mp3").
Proof.
  apply encodeURIComponent_unreserved, Forall_app. split.
  - eapply Forall_impl; [apply resolveTitle_units|].
    intros c. apply isTitleUnit_unreserved.
  - vm_compute. repeat constructor.
Qed.

Lemma unlinkSync_absent (d : Dir) (name : jsstring) : name ∉ names (unlinkSync d name).
Proof.
  unfold names, unlinkSync. intros ((n & sz) & Heq & Hin)%list_elem_of_fmap.
  apply list_elem_of_filter in Hin as [Hne _]. simpl in *. congruence.
Qed.

Lemma cleanupFile_absent (d : Dir) (name : jsstring) : name ∉ names (cleanupFile d name).
Proof.
  unfold cleanupFile, existsSync. case_bool_decide; [apply unlinkSync_absent | done].
Qed.

(** [cleanup] leaves every other file where it is. *)
Lemma cleanupFile_other (d : Dir) (name other : jsstring) :
  other ≠ name → other ∈ names d → other ∈ names (cleanupFile d name).
Proof.
  intros Hne Hin. unfold cleanupFile. destruct (existsSync d name); [|done].
  unfold names, unlinkSync in *.
  apply list_elem_of_fmap in Hin as ((n & sz) & -> & Hin).
  apply list_elem_of_fmap. exists (n, sz). split; [done|].
  apply list_elem_of_filter. done.
Qed.

Lemma statSize_names (d : Dir) (name : jsstring) (size : N) :
  statSize d name = Some size → name ∈ names d.
Proof.
  induction d as [|[n sz] d IH]; simpl; [done|].
  case_decide; [subst; intros _; apply list_elem_of_here|].
  intros H1. apply list_elem_of_further. by apply IH.
Qed.

End OrchestratorFacts.

(** ** Orchestrator: one download attempt *)

Module DownloadSpec.

Import Orchestrator OrchestratorFacts.

Lemma isCancelled_withTemp sid d s : isCancelled sid (withTemp d s) = isCancelled sid s.
Proof. reflexivity. Qed.

(** The [catch] block never answers with audio, never suspends, and
    leaves no file at the expected path. *)
Lemma catchBlock_result p ts message s :
  (catchBlock p ts message s).2
  = (Some (Status500 (lit "Failed to download/convert video") message), None).
Proof. reflexivity. Qed.

Lemma catchBlock_removes p ts message s :
  expectedMp3 ts ∉ names (tempDir (catchBlock p ts message s).1).
Proof. simpl. apply cleanupFile_absent. Qed.

Lemma fileProduced_checked ts d :
  fileProduced ts d = true → ∃ d', fileCheck ts d = Some d'.
Proof.
  unfold fileProduced, fileCheck. intros Hex.
  destruct (existsSync d (expectedMp3 ts)); [by eauto|].
  apply existsb_exists in Hex as (f & Hin & Hf).
  destruct (filter _ (names d)) as [|a l] eqn:Hfl; [|by eauto].
  assert (f ∈ filter (λ f, startsWith f (audioPrefix ts)) (names d)) as Hmem.
  { apply list_elem_of_filter. split; [by apply Is_true_true | by apply list_elem_of_In]. }
  rewrite Hfl in Hmem. by apply elem_of_nil in Hmem.
Qed.

(** A segment that answers with audio read the size from the file it is
    about to stream and named it after the title. *)
Lemma afterDownload_audio sid ts title p s s' xFilename len k :
  afterDownload sid ts title p s = (s', (Some (Audio xFilename len), k)) →
  encodeURIComponent (title ++ lit ".mp3") = Some xFilename
  ∧ statSize (tempDir s') (expectedMp3 ts) = Some len
  ∧ k = Some (AwaitStream ts).
Proof.
  unfold afterDownload.
  destruct (fileCheck ts (tempDir s)) as [d|]; [|discriminate].
  cbv zeta. destruct (isCancelled sid (withTemp d s)); [discriminate|].
  destruct (encodeURIComponent (title ++ lit ".mp3")) as [x|]; [|discriminate].
  destruct (statSize d (expectedMp3 ts)) as [size|] eqn:Hsize; [|discriminate].
  intros [= <- <- <- <-]. done.
Qed.

(** Every way a resumed handler can finish without streaming removes the
    file at the expected path. *)
Lemma resume_finished_removes k e s s' r ts :
  (∃ sid title p, k = AwaitClose sid ts title p) ∨ k = AwaitStream ts →
  resume k e s = (s', (r, None)) →
  expectedMp3 ts ∉ names (tempDir s').
Proof.
  intros [(sid & title & p & ->)| ->]; destruct e; simpl; try discriminate.
  - destruct code as [[|c]|].
    + unfold afterDownload. destruct (fileCheck _ _) as [d|].
      * cbv zeta. destruct (isCancelled _ _).
        { intros [= <- _]. apply cleanupFile_absent. }
        destruct (encodeURIComponent _);
          [destruct (statSize _ _); [discriminate|]|];
          intros [= <- _]; apply cleanupFile_absent.
      * intros [= <- _]. apply cleanupFile_absent.
    + intros [= <- _]. apply cleanupFile_absent.
    + intros [= <- _]. apply cleanupFile_absent.
  - intros [= <- _]. apply cleanupFile_absent.
  - intros [= <- _]. apply cleanupFile_absent.
  - intros [= <- _]. apply cleanupFile_absent.
Qed.

Definition sampleRequest : Request :=
  {| url := Some (lit "https://youtu.be/abc"); sessionId := Some (lit "s") |}.

(** C2, as stated, fails: for the title [a-b] the handler suggests
    [a-b.mp3], while replacing every non-alphanumeric character with an
    underscore gives [a_b.mp3], whether it is applied to the title the tool
    printed or to the title the handler resolved. *)
Lemma filename_keeps_hyphen :
  (attempt sampleRequest
     [TitleQuery (Some (lit "a-b"));
      ChildClose (Some 0) [] [(expectedMp3 100, 42)]]
     (initial 100)).2 = Some (Audio (lit "a-b.mp3") 42)
  ∧ spec_filename (trim (lit "a-b")) = lit "a_b.mp3"
  ∧ spec_filename (resolveTitle 100 (Some (lit "a-b"))) = lit "a_b.mp3"
  ∧ lit "a-b.mp3" ≠ lit "a_b.mp3".
Proof. vm_compute. repeat split; discriminate. Qed.

(** C2, amended. When a download reaches the streaming step, the
    [X-Filename] header is the resolved title followed by [.mp3], where
    the resolved title is the title the tool printed, trimmed, with every
    code unit outside [A-Za-z0-9_], white space and the hyphen removed,
    every run of white space replaced by one underscore, cut to 50 code
    units, or [audio_<timestamp>] when the query failed; it consists of
    letters, digits, underscores and hyphens only; and [Content-Length]
    is the size of the file at the expected path. *)
Theorem streamed_filename_and_length
  sid ts stdout s1 s1' k s2 s2' code stderr written xFilename len k' :
  resume (AwaitTitle sid ts) (TitleQuery stdout) s1 = (s1', (None, Some k)) →
  resume k (ChildClose code stderr written) s2
  = (s2', (Some (Audio xFilename len), k')) →
  xFilename
  = match stdout with
    | Some out =>
        firstn 50 (replaceSpaces false (removeSpecial (trim out)))
    | None => lit "audio_" ++ decimal ts
    end ++ lit ".mp3"
  ∧ Forall (λ c, isTitleUnit c = true) (resolveTitle ts stdout)
  ∧ (∀ out, stdout = Some out → (length (resolveTitle ts stdout) ≤ 50)%nat)
  ∧ statSize (tempDir s2') (expectedMp3 ts) = Some len.
Proof.
  intros Htitle Hclose. simpl in Htitle.
  destruct (isCancelled sid s1); [discriminate|].
  injection Htitle as _ <-. simpl in Hclose.
  destruct code as [[|c]|]; try discriminate.
  apply afterDownload_audio in Hclose as (Henc & Hsize & _).
  rewrite encode_filename in Henc. injection Henc as <-.
  split; [by destruct stdout|]. repeat split.
  - apply resolveTitle_units.
  - intros out ->. apply sanitizeTitle_length.
  - exact Hsize.
Qed.

Lemma streamed_filename_and_length_witness :
  lit "Never_Gonna-Give_You_Up.mp3"
  = firstn 50 (replaceSpaces false
                 (removeSpecial (trim (lit "  Never Gonna-Give  You Up!! "))))
    ++ lit ".mp3"
  ∧ statSize [(expectedMp3 100, 42)] (expectedMp3 100) = Some 42.
Proof.
  pose proof (streamed_filename_and_length
    (Some (lit "s")) 100 (Some (lit "  Never Gonna-Give  You Up!! "))
    (initial 100)
    (resume (AwaitTitle (Some (lit "s")) 100)
            (TitleQuery (Some (lit "  Never Gonna-Give  You Up!! ")))
            (initial 100)).1
    (AwaitClose (Some (lit "s")) 100 (lit "Never_Gonna-Give_You_Up") 0)
    (initial 100)
    (withExited {[0]} (withTemp [(expectedMp3 100, 42)] (initial 100)))
    (Some 0) [] [(expectedMp3 100, 42)]
    (lit "Never_Gonna-Give_You_Up.mp3") 42 (Some (AwaitStream 100))
    eq_refl eq_refl) as (Hname & _ & _ & Hsize).
  split; [exact Hname | exact Hsize].
Defined.

(** C4 fails on the code: the tool exits with status 1 after leaving a
    partial download under the attempt's prefix; the handler answers 500
    and the partial file is still in the temp directory. *)
Lemma partial_file_left_behind :
  attempt sampleRequest
    [TitleQuery None;
     ChildClose (Some 1) (lit "ERROR") [(lit "audio_100.mp3.part", 1000)]]
    (initial 100)
  = (mkServer ∅ ∅ ∅ {[0]} [(lit "audio_100.mp3.part", 1000)] [] 100 1,
     Some (Status500 (lit "Failed to download/convert video")
                     (lit "yt-dlp exited with code 1: ERROR"))).
Proof. vm_compute. reflexivity. Qed.

End DownloadSpec.

(** ** Orchestrator: cancellation state *)

Module CancellationSpec.

Import Orchestrator.

(** The fields that cancellation and process tracking rest on. *)
Definition sameSessions (s s' : Server) : Prop :=
  cancelledSessions s' = cancelledSessions s
  ∧ activeProcesses s' = activeProcesses s
  ∧ nextPid s' = nextPid s.

(** A spawned process that no session tracks. *)
Definition untracked (p : N) (s : Server) : Prop :=
  p < nextPid s ∧ ∀ sid, activeProcesses s !! sid ≠ Some p.

#[local] Arguments catchBlock : simpl never.
#[local] Arguments afterDownload : simpl never.
#[local] Arguments kill : simpl never.
#[local] Arguments cleanup : simpl never.
#[local] Arguments childGone : simpl never.

Lemma wf_initial t0 : wf (initial t0).
Proof.
  split; simpl.
  - intros sid Hin. by apply not_elem_of_empty in Hin.
  - intros sid p Hl. by rewrite lookup_empty in Hl.
Qed.

Lemma wf_sameSessions s s' : sameSessions s s' → wf s → wf s'.
Proof. intros (Hc & Ha & Hn) [H1 H2]. split; rewrite ?Hc, ?Ha, ?Hn; done. Qed.

Lemma untracked_sameSessions p s s' : sameSessions s s' → untracked p s → untracked p s'.
Proof. intros (Hc & Ha & Hn) [H1 H2]. split; rewrite ?Ha, ?Hn; done. Qed.

Lemma sameSessions_kill p s : sameSessions s (kill p s).
Proof. unfold kill. by case_bool_decide. Qed.

Lemma sameSessions_catchBlock p ts m s : sameSessions s (catchBlock p ts m s).1.
Proof.
  unfold catchBlock, cleanup. simpl. destruct p as [p|]; [|done].
  case_bool_decide; [done|]. apply sameSessions_kill.
Qed.

Lemma sameSessions_afterDownload sid ts title p s :
  sameSessions s (afterDownload sid ts title p s).1.
Proof.
  unfold afterDownload. destruct (fileCheck _ _) as [d|];
    [|apply sameSessions_catchBlock].
  cbv zeta. destruct (isCancelled _ _); [done|].
  destruct (encodeURIComponent _);
    [destruct (statSize _ _); [done|]|];
    apply (sameSessions_catchBlock _ _ _ (withTemp d s)).
Qed.

Lemma foldl_fire s due :
  foldl fire s due
  = withCancelled (cancelledSessions s ∖ list_to_set due.*2) s.
Proof.
  revert s. induction due as [|t due IH]; intros s.
  - destruct s. unfold withCancelled. simpl. f_equal.
    by rewrite difference_empty_L.
  - simpl. rewrite IH. unfold fire, withCancelled. simpl. f_equal.
    by rewrite difference_difference_l_L.
Qed.

Lemma cancelled_advance t s :
  cancelledSessions (advance t s)
  = cancelledSessions s
      ∖ list_to_set (filter (λ x : N * option jsstring, x.1 <= t) (timers s)).*2.
Proof. unfold advance. by rewrite foldl_fire. Qed.

Lemma wf_cancel sid s : wf s → wf (cancel sid s).
Proof.
  intros [H1 H2]. unfold cancel. destruct (truthy_opt sid) eqn:Hsid; [|done].
  simpl. destruct (activeProcesses s !! sid) as [p|]; simpl.
  - case_bool_decide; simpl.
    + split; simpl; [|done].
      intros x [->%elem_of_singleton|Hx]%elem_of_union; auto.
    + unfold kill. case_bool_decide; split; simpl; try done;
        intros x [->%elem_of_singleton|Hx]%elem_of_union; auto.
  - split; simpl; [|done].
    intros x [->%elem_of_singleton|Hx]%elem_of_union; auto.
Qed.

Lemma wf_clearCancel sid s : wf s → wf (clearCancel sid s).
Proof.
  intros [H1 H2]. unfold clearCancel. destruct (truthy_opt sid); [|done].
  split; simpl; [|done]. intros x [Hx _]%elem_of_difference. auto.
Qed.

Lemma wf_advance t s : wf s → wf (advance t s).
Proof.
  intros [H1 H2]. split.
  - rewrite cancelled_advance. intros x [Hx _]%elem_of_difference. auto.
  - unfold advance. rewrite foldl_fire. simpl. done.
Qed.

Lemma resume_close sid ts title p code stderr written s :
  resume (AwaitClose sid ts title p) (ChildClose code stderr written) s
  = match code with
    | Some 0 => afterDownload sid ts title p (closed sid p written s)
    | _ => catchBlock (Some p) ts (exitMessage code stderr) (closed sid p written s)
    end.
Proof. reflexivity. Qed.

Lemma resume_error sid ts title p message s :
  resume (AwaitClose sid ts title p) (ChildError message) s
  = catchBlock (Some p) ts message (closed sid p [] s).
Proof. reflexivity. Qed.

Lemma sameSessions_resume_close sid ts title p e s :
  (∃ code stderr written, e = ChildClose code stderr written
     ∧ sameSessions (closed sid p written s)
                    (resume (AwaitClose sid ts title p) e s).1)
  ∨ (∃ message, e = ChildError message
     ∧ sameSessions (closed sid p [] s)
                    (resume (AwaitClose sid ts title p) e s).1)
  ∨ resume (AwaitClose sid ts title p) e s = (s, (None, Some (AwaitClose sid ts title p))).
Proof.
  destruct e as [stdout|code stderr written|message| |].
  - by right; right.
  - left. exists code, stderr, written. split; [done|]. rewrite resume_close.
    destruct code as [[|c]|];
      [apply sameSessions_afterDownload | apply sameSessions_catchBlock ..].
  - right; left. exists message. split; [done|]. rewrite resume_error.
    apply sameSessions_catchBlock.
  - by right; right.
  - by right; right.
Qed.

Lemma wf_closed sid p written s : wf s → wf (closed sid p written s).
Proof.
  intros [H1 H2]. split; [done|]. unfold closed, childGone. simpl.
  intros sid' p' [_ Hl]%lookup_delete_Some. eauto.
Qed.

Lemma wf_resume k e s : wf s → wf (resume k e s).1.
Proof.
  intros Hwf. destruct k as [sid ts|sid ts title p|ts].
  - destruct e; try exact Hwf. simpl.
    destruct (isCancelled sid s); [done|]. destruct Hwf as [H1 H2].
    destruct (truthy_opt sid) eqn:Hsid; split; simpl; try done.
    + intros sid' p'. rewrite lookup_insert. case_decide as Heq.
      * intros [= <-]. subst. split; [done|lia].
      * intros Hl. destruct (H2 _ _ Hl). split; [done|lia].
    + intros sid' p' Hl. destruct (H2 _ _ Hl). split; [done|lia].
  - destruct (sameSessions_resume_close sid ts title p e s)
      as [(c & e' & w & _ & Hs)|[(m & _ & Hs)| ->]]; [| |done];
      (eapply wf_sameSessions; [exact Hs | by apply wf_closed]).
  - destruct e; try exact Hwf; by destruct Hwf.
Qed.

Lemma wf_download req s : wf s → wf (download req s).1.
Proof.
  intros Hwf. unfold download. destruct (negb _); [done|].
  by destruct (isCancelled _ _).
Qed.

Lemma wf_apply s o : wf s → wf (apply s o).
Proof.
  destruct o; simpl;
    auto using wf_cancel, wf_clearCancel, wf_advance, wf_download, wf_resume.
Qed.

(** The invariant holds in every state the server can get to. *)
Lemma wf_run ops s : wf s → wf (run ops s).
Proof.
  unfold run. revert s. induction ops as [|o ops IH]; intros s Hwf; simpl; [done|].
  apply IH. by apply wf_apply.
Qed.

(** A missing session identifier is never marked cancelled. *)
Lemma wf_undefined_not_cancelled s sid :
  wf s → truthy_opt sid = false → isCancelled sid s = false.
Proof.
  intros [H1 _] Hsid. unfold isCancelled. apply bool_decide_eq_false_2.
  intros Hin. apply H1 in Hin. congruence.
Qed.

(** *** What [cancel], [clearCancel] and the timers change *)

Lemma cancel_truthy sid s :
  truthy_opt sid = true →
  cancelledSessions (cancel sid s) = {[sid]} ∪ cancelledSessions s
  ∧ timers (cancel sid s) = timers s ++ [(now s + fiveMinutes, sid)]
  ∧ now (cancel sid s) = now s
  ∧ activeProcesses (cancel sid s) = activeProcesses s
  ∧ nextPid (cancel sid s) = nextPid s.
Proof.
  intros Hsid. unfold cancel. rewrite Hsid. simpl.
  destruct (activeProcesses s !! sid) as [p|]; [|done].
  case_bool_decide; [done|]. unfold kill. by case_bool_decide.
Qed.

Lemma cancel_falsy sid s : truthy_opt sid = false → cancel sid s = s.
Proof. intros Hsid. unfold cancel. by rewrite Hsid. Qed.

(** [cancel] signals the process tracked under the session, and no
    other. *)
Lemma killed_cancel sid s p :
  p ∈ killed (cancel sid s) →
  p ∈ killed s ∨ activeProcesses s !! sid = Some p.
Proof.
  unfold cancel. destruct (truthy_opt sid); [|by left]. simpl.
  destruct (activeProcesses s !! sid) as [q|]; [|by left].
  case_bool_decide; [by left|]. unfold kill. case_bool_decide; [by left|].
  simpl. intros [->%elem_of_singleton|Hp]%elem_of_union; [by right | by left].
Qed.

Lemma killed_cancel_mono sid s p : p ∈ killed s → p ∈ killed (cancel sid s).
Proof.
  intros Hp. unfold cancel. destruct (truthy_opt sid); [|done]. simpl.
  destruct (activeProcesses s !! sid) as [q|]; [|done].
  case_bool_decide; [done|]. unfold kill. case_bool_decide; [done|].
  simpl. apply elem_of_union. by right.
Qed.

Lemma timers_advance_kept t s x :
  x ∈ timers s → t < x.1 → x ∈ timers (advance t s).
Proof.
  intros Hin Hlt. unfold advance. simpl.
  apply list_elem_of_filter. split; [lia | done].
Qed.

(** A timer that is due removes the mark of its session. *)
Lemma advance_fires t s due sid :
  (due, sid) ∈ timers s → due <= t → isCancelled sid (advance t s) = false.
Proof.
  intros Hin Hdue. unfold isCancelled. apply bool_decide_eq_false_2.
  rewrite cancelled_advance. intros [_ Hn]%elem_of_difference. apply Hn.
  apply elem_of_list_to_set, list_elem_of_fmap. exists (due, sid).
  split; [done|]. by apply list_elem_of_filter.
Qed.

Lemma now_advance t s : now (advance t s) = N.max (now s) t.
Proof. reflexivity. Qed.

(** *** Untracked processes *)

Lemma untracked_cancel p sid s : untracked p s → untracked p (cancel sid s).
Proof.
  intros [H1 H2]. destruct (truthy_opt sid) eqn:Hsid;
    [|by rewrite cancel_falsy].
  destruct (cancel_truthy sid s Hsid) as (_ & _ & _ & Ha & Hn).
  split; by rewrite ?Ha, ?Hn.
Qed.

Lemma untracked_resume p k e s : untracked p s → untracked p (resume k e s).1.
Proof.
  intros Hu. destruct k as [sid ts|sid ts title q|ts].
  - destruct e; try exact Hu. simpl.
    destruct (isCancelled sid s); [done|]. destruct Hu as [H1 H2].
    destruct (truthy_opt sid); split; simpl; try lia; try done.
    intros sid'. rewrite lookup_insert. case_decide; [|done].
    intros [= Heq]. lia.
  - assert (∀ w, untracked p (closed sid q w s)) as Hc.
    { intros w. destruct Hu as [H1 H2]. split; [done|].
      unfold closed, childGone. simpl.
      intros sid' [_ Hl]%lookup_delete_Some. by eapply H2. }
    destruct (sameSessions_resume_close sid ts title q e s)
      as [(c & e' & w & _ & Hs)|[(m & _ & Hs)| ->]]; [| |done];
      (eapply untracked_sameSessions; [exact Hs | apply Hc]).
  - destruct e; try exact Hu; by destruct Hu.
Qed.

Lemma untracked_apply p s o : untracked p s → untracked p (apply s o).
Proof.
  intros Hu. destruct o as [sid|sid|t|req|k e]; simpl.
  - by apply untracked_cancel.
  - unfold clearCancel. by destruct (truthy_opt sid).
  - destruct Hu. split; unfold advance; rewrite foldl_fire; done.
  - unfold download. destruct (negb _); [done|]. by destruct (isCancelled _ _).
  - by apply untracked_resume.
Qed.

Lemma untracked_run p ops s : untracked p s → untracked p (run ops s).
Proof.
  unfold run. revert s. induction ops as [|o ops IH]; intros s Hu; simpl; [done|].
  apply IH. by apply untracked_apply.
Qed.

(** A check that does not find the session marked does not answer 499. *)
Lemma close_not_cancelled sid ts title p e s m :
  isCancelled sid s = false →
  (resume (AwaitClose sid ts title p) e s).2.1 ≠ Some (Status499 m).
Proof.
  intros Hc. destruct e as [stdout|code stderr written|message| |]; try done.
  rewrite resume_close. destruct code as [[|c]|]; try done.
  unfold afterDownload. destruct (fileCheck _ _) as [d|]; [|done].
  cbv zeta.
  replace (isCancelled sid (withTemp d (closed sid p written s)))
    with (isCancelled sid s) by reflexivity.
  rewrite Hc. destruct (encodeURIComponent _); [|done].
  by destruct (statSize _ _).
Qed.

(** C7 fails on the code: a session that is already marked when the
    [cancel] arrives (here by an earlier [cancel]) is not marked after the
    [clearCancel], so the marks are not what they were before that
    [cancel]. *)
Lemma clearCancel_forgets_earlier_mark :
  let sid := Some (lit "s") in
  let before := cancel sid (initial 100) in
  let after := clearCancel sid (cancel sid before) in
  wf before
  ∧ isCancelled sid before = true
  ∧ isCancelled sid after = false
  ∧ cancelledSessions after ≠ cancelledSessions before.
Proof.
  cbv zeta. split; [apply wf_cancel, wf_initial|].
  split; [reflexivity|]. split; [reflexivity|].
  intros Heq.
  assert (isCancelled (Some (lit "s"))
            (clearCancel (Some (lit "s"))
               (cancel (Some (lit "s")) (cancel (Some (lit "s")) (initial 100))))
          = isCancelled (Some (lit "s")) (cancel (Some (lit "s")) (initial 100)))
    as Hsame by (unfold isCancelled; by rewrite Heq).
  discriminate Hsame.
Qed.

(** C7, amended.  After [cancel] and then [clearCancel] on a session
    identifier the identifier is not marked: a download request on it passes
    the check at entry, the check after the metadata query spawns the
    subprocess, the last check does not answer 499.  The marked sessions
    are then those marked before the [cancel] without this identifier: what
    they were when the session was not marked before the [cancel], one
    fewer when it was. *)
Theorem clearCancel_after_cancel (sid : option jsstring) (s : Server) :
  wf s →
  let s' := clearCancel sid (cancel sid s) in
  isCancelled sid s' = false
  ∧ (∀ u, truthy_opt u = true →
          download {| url := u; sessionId := sid |} s'
          = (s', (None, Some (AwaitTitle sid (now s')))))
  ∧ (∀ ts stdout,
          (resume (AwaitTitle sid ts) (TitleQuery stdout) s').2
          = (None, Some (AwaitClose sid ts (resolveTitle ts stdout) (nextPid s'))))
  ∧ (∀ ts title p e m,
          (resume (AwaitClose sid ts title p) e s').2.1 ≠ Some (Status499 m))
  ∧ (isCancelled sid s = false → cancelledSessions s' = cancelledSessions s)
  ∧ cancelledSessions s' = cancelledSessions s ∖ {[sid]}.
Proof.
  intros Hwf s'.
  assert (isCancelled sid s' = false) as Hclear.
  { subst s'. destruct (truthy_opt sid) eqn:Hsid.
    - unfold isCancelled, clearCancel. rewrite Hsid. simpl.
      apply bool_decide_eq_false_2. intros [_ Hn]%elem_of_difference.
      apply Hn. by apply elem_of_singleton.
    - apply CancellationSpec.wf_undefined_not_cancelled; [|done].
      by apply wf_clearCancel, wf_cancel. }
  assert (cancelledSessions s' = cancelledSessions s ∖ {[sid]}) as Hmarks.
  { subst s'. destruct (truthy_opt sid) eqn:Hsid.
    - unfold clearCancel. rewrite Hsid. simpl.
      destruct (cancel_truthy sid s Hsid) as (-> & _).
      by rewrite difference_union_distr_l_L, difference_diag_L, union_empty_l_L.
    - unfold clearCancel. rewrite Hsid, cancel_falsy by done.
      symmetry. apply difference_disjoint_L, disjoint_singleton_r.
      pose proof (CancellationSpec.wf_undefined_not_cancelled s sid Hwf Hsid)
        as Hn.
      by apply bool_decide_eq_false in Hn. }
  split; [done|]. split; [|split; [|split; [|split]]].
  - intros u Hu. unfold download. simpl. by rewrite Hu, Hclear.
  - intros ts stdout. simpl. rewrite Hclear. by destruct (truthy_opt sid).
  - intros ts title p e m. by apply close_not_cancelled.
  - intros Hbefore. rewrite Hmarks.
    apply bool_decide_eq_false in Hbefore.
    apply difference_disjoint_L. by apply disjoint_singleton_r.
  - exact Hmarks.
Qed.

Lemma clearCancel_after_cancel_witness :
  isCancelled (Some (lit "s"))
    (clearCancel (Some (lit "s")) (cancel (Some (lit "s")) (initial 100)))
  = false
  ∧ cancelledSessions
      (clearCancel (Some (lit "s")) (cancel (Some (lit "s")) (initial 100)))
    = cancelledSessions (initial 100).
Proof.
  destruct (clearCancel_after_cancel (Some (lit "s")) (initial 100)
              (wf_initial 100)) as (Hclear & _ & _ & _ & Hsame & _).
  split; [exact Hclear | by apply Hsame].
Defined.

(** C9, as stated, fails: a request whose [url] field is present but
    empty is rejected with status 400 before any work. *)
Lemma empty_url_rejected :
  download {| url := Some []; sessionId := Some (lit "s") |} (initial 100)
  = (initial 100, (Some (Status400 (lit "URL is required")), None)).
Proof. reflexivity. Qed.

(** C9, amended. The handler rejects a request with status 400 exactly
    when its [url] is absent or empty.  A request with a [url] and no [sessionId]
    is accepted; in no state the server can get to is it found cancelled;
    its subprocess is spawned but tracked under no session, so no [cancel]
    call, whenever it comes, changes whether that process has been
    signalled. *)
Theorem download_requires_only_url (req : Request) (s : Server) :
  wf s →
  ((∃ m, (download req s).2 = (Some (Status400 m), None))
   ↔ truthy_opt (url req) = false)
  ∧ (truthy_opt (url req) = true → sessionId req = None →
     download req s = (s, (None, Some (AwaitTitle None (now s))))
     ∧ (∀ ops, isCancelled None (run ops s) = false)
     ∧ (∀ ops ts stdout,
          let s1 := run ops s in
          let r := resume (AwaitTitle None ts) (TitleQuery stdout) s1 in
          r.2 = (None, Some (AwaitClose None ts (resolveTitle ts stdout)
                                        (nextPid s1)))
          ∧ ∀ ops' sid,
              nextPid s1 ∈ killed (cancel sid (run ops' r.1))
              ↔ nextPid s1 ∈ killed (run ops' r.1))).
Proof.
  intros Hwf. split.
  - unfold download. destruct (truthy_opt (url req)); simpl.
    + split; [|done]. intros [m Hm]. by destruct (isCancelled _ _).
    + split; [done|]. intros _. by eexists.
  - intros Hurl Hsid.
    assert (∀ ops, isCancelled None (run ops s) = false) as Hnever.
    { intros ops. apply wf_undefined_not_cancelled; [by apply wf_run | done]. }
    split; [|split; [done|]].
    + assert (isCancelled None s = false) as Hs by apply (Hnever []).
      unfold download. rewrite Hurl, Hsid. simpl. by rewrite Hs.
    + intros ops ts stdout s1 r.
      assert (r = (withNextPid (nextPid s1 + 1) s1,
                   (None, Some (AwaitClose None ts (resolveTitle ts stdout)
                                           (nextPid s1))))) as Hr.
      { subst r. simpl. subst s1. by rewrite Hnever. }
      split; [by rewrite Hr|].
      assert (untracked (nextPid s1) r.1) as Hu.
      { rewrite Hr. split; simpl; [lia|].
        intros sid Hl. pose proof (wf_run ops s Hwf) as [_ H2].
        apply H2 in Hl as [_ Hlt]. subst s1. lia. }
      intros ops' sid. split; [|apply killed_cancel_mono].
      intros [Hk|Hl]%killed_cancel; [done|].
      by destruct (untracked_run _ ops' _ Hu) as [_ H2], (H2 sid).
Qed.

Lemma download_requires_only_url_witness :
  download {| url := Some (lit "https://youtu.be/abc"); sessionId := None |}
           (initial 100)
  = (initial 100, (None, Some (AwaitTitle None 100))).
Proof.
  apply (download_requires_only_url
           {| url := Some (lit "https://youtu.be/abc"); sessionId := None |}
           (initial 100) (wf_initial 100)); reflexivity.
Defined.

(** C10. Every [cancel] on a session appends its own timer, due five
    minutes after that call.  For [cancel] at [t0], [clearCancel] at [t1]
    and [cancel] again at a later [t2], all before [t0] plus five minutes,
    the session is marked after the second [cancel] and is no longer marked
    once the clock reaches [t0] plus five minutes, which is less than five
    minutes after the second [cancel]. *)
Theorem stale_timer_uncancels (sid : option jsstring) (s : Server) (t1 t2 : N) :
  truthy_opt sid = true →
  now s <= t1 → t1 <= t2 → now s < t2 → t2 < now s + fiveMinutes →
  let first := cancel sid s in
  let cleared := clearCancel sid (advance t1 first) in
  let second := cancel sid (advance t2 cleared) in
  let later := advance (now s + fiveMinutes) second in
  timers first = timers s ++ [(now s + fiveMinutes, sid)]
  ∧ timers second = timers (advance t2 cleared) ++ [(t2 + fiveMinutes, sid)]
  ∧ isCancelled sid cleared = false
  ∧ isCancelled sid second = true
  ∧ isCancelled sid later = false
  ∧ now later = now s + fiveMinutes
  ∧ now later < t2 + fiveMinutes.
Proof.
  intros Hsid H01 H12 H02 H2 first cleared second later.
  destruct (cancel_truthy sid s Hsid) as (Hc1 & Ht1 & Hn1 & _).
  destruct (cancel_truthy sid (advance t2 cleared) Hsid) as (Hc2 & Ht2 & Hn2 & _).
  assert (now (advance t2 cleared) = t2) as Hnow2.
  { rewrite now_advance. subst cleared. unfold clearCancel. rewrite Hsid. simpl.
    unfold first. rewrite Hn1. lia. }
  assert ((now s + fiveMinutes, sid) ∈ timers second) as Hstale.
  { subst second. rewrite Ht2. apply elem_of_app. left.
    apply timers_advance_kept; [|simpl; lia].
    subst cleared. unfold clearCancel. rewrite Hsid.
    change (timers (withCancelled _ ?x)) with (timers x).
    apply timers_advance_kept; [|simpl; lia].
    subst first. rewrite Ht1. apply elem_of_app. right. apply list_elem_of_here. }
  split; [exact Ht1|]. split; [rewrite <- Hnow2 at 2; exact Ht2|].
  split; [|split; [|split; [|split]]].
  - subst cleared. unfold isCancelled, clearCancel. rewrite Hsid. simpl.
    apply bool_decide_eq_false_2. intros [_ Hn]%elem_of_difference.
    apply Hn. by apply elem_of_singleton.
  - unfold isCancelled. apply bool_decide_eq_true_2. subst second.
    rewrite Hc2. apply elem_of_union. left. by apply elem_of_singleton.
  - by apply (advance_fires _ _ (now s + fiveMinutes)).
  - subst later. rewrite now_advance. subst second. rewrite Hn2, Hnow2. lia.
  - subst later. rewrite now_advance. subst second. rewrite Hn2, Hnow2.
    unfold fiveMinutes in *. lia.
Qed.

Lemma stale_timer_uncancels_witness :
  isCancelled (Some (lit "s"))
    (advance 300100
       (cancel (Some (lit "s"))
          (advance 2000
             (clearCancel (Some (lit "s"))
                (advance 1000 (cancel (Some (lit "s")) (initial 100)))))))
  = false.
Proof.
  apply (stale_timer_uncancels (Some (lit "s")) (initial 100) 1000 2000);
    [reflexivity | unfold fiveMinutes; simpl; lia ..].
Defined.

End CancellationSpec.

(** ** Batch driver *)

Module BatchDriverSpec.

Import BatchDriver.

(** The request [downloadSingle] sends for an item. *)
Definition requestFor (sessionId : jsstring) (l : Item) : Orchestrator.Request :=
  Orchestrator.Build_Request (Some (link l)) (Some sessionId).

Section Updates.

Variable index : nat.
Variable g : Item -> Item.

(** [prev.map((l, i) => i === index ? g(l) : l)] *)
Definition update (ls : list Item) : list Item :=
  imap (fun i l => if decide (i = index) then g l else l) ls.

Lemma length_update ls : length (update ls) = length ls.
Proof. apply length_imap. Qed.

Lemma lookup_update_ne ls j : j ≠ index → update ls !! j = ls !! j.
Proof.
  intros Hj. unfold update. rewrite list_lookup_imap.
  destruct (ls !! j); simpl; [|done]. by rewrite decide_False.
Qed.

Lemma lookup_update_eq ls : update ls !! index = g <$> ls !! index.
Proof.
  unfold update. rewrite list_lookup_imap.
  destruct (ls !! index); simpl; [|done]. by rewrite decide_True.
Qed.

End Updates.

Lemma setStatus_update index st ls :
  setStatus index st ls
  = update index (fun l => mkItem (row l) (link l) st (error l)) ls.
Proof. reflexivity. Qed.

Lemma setStatusError_update index st err ls :
  setStatusError index st err ls
  = update index (fun l => mkItem (row l) (link l) st (Some err)) ls.
Proof. reflexivity. Qed.

(** One call of [downloadSingle] while nobody cancels: one request, and
    the link's own response decides its status. *)
Lemma downloadSingle_quiet sessionId item index env s :
  cancelledRef s = false →
  cancelDuringFetch env = false → cancelDuringBody env = false →
  let s1 := downloadSingle sessionId item index env s in
  cancelledRef s1 = false
  ∧ requests s1 = requests s ++ [requestFor sessionId item]
  ∧ delays s1 = delays s
  ∧ length (links s1) = length (links s)
  ∧ (∀ j, j ≠ index → links s1 !! j = links s !! j)
  ∧ (index < length (links s) →
     status <$> links s1 !! index = Some (outcome env))%nat.
Proof.
  intros Hc Hf Hb. unfold downloadSingle, outcome. simpl. rewrite Hc, Hf, Hb.
  simpl.
  assert (index < length (links s) → ∃ l, links s !! index = Some l)%nat as Hex.
  { intros Hlt. by apply lookup_lt_is_Some. }
  destruct (fetched env) as [message|r]; simpl;
    [|destruct (ok r); simpl; [destruct (blobError env) as [message|]; simpl|]];
    rewrite ?setStatusError_update, ?setStatus_update;
    (repeat split; rewrite ?length_update; try done;
     [ intros j Hj; by rewrite !lookup_update_ne
     | intros Hlt; destruct (Hex Hlt) as [l Hl];
       by rewrite !lookup_update_eq, Hl ]).
Qed.

(** The loop while nobody cancels: it goes through all the links that are
    left, whatever their responses. *)
Lemma loop_quiet sessionId items env :
  neverCancelled env →
  ∀ todo i s,
    cancelledRef s = false →
    length (links s) = length items →
    (i + todo = length items)%nat →
    let s' := loop sessionId items env todo i s in
    cancelledRef s' = false
    ∧ requests s' = requests s ++ (requestFor sessionId <$> drop i items)
    ∧ length (links s') = length items
    ∧ (∀ j, j < i → links s' !! j = links s !! j)%nat
    ∧ (∀ j, i ≤ j < length items →
            status <$> links s' !! j = Some (outcome (env j)))%nat.
Proof.
  intros Hquiet. induction todo as [|todo IH]; intros i s Hc Hlen Hi; simpl.
  - repeat split; try done.
    + rewrite drop_ge by lia. by rewrite app_nil_r.
    + intros j Hj. lia.
  - rewrite Hc.
    destruct (items !! i) as [item|] eqn:Hitem;
      [|apply lookup_ge_None in Hitem; lia].
    destruct (Hquiet i) as (Hf & Hb & Hd).
    destruct (downloadSingle_quiet sessionId item i (env i) s Hc Hf Hb)
      as (Hc1 & Hr1 & _ & Hl1 & Hne1 & Heq1).
    set (s1 := downloadSingle sessionId item i (env i) s) in *.
    set (s2 := if bool_decide (i < length items - 1)%nat && negb (cancelledRef s1)
               then _ else s1).
    assert (cancelledRef s2 = false ∧ links s2 = links s1
            ∧ requests s2 = requests s1) as (Hc2 & Hl2 & Hr2).
    { subst s2. destruct (_ && _); simpl; [|done]. by rewrite Hc1, Hd. }
    destruct (IH (S i) s2) as (Hc' & Hr' & Hl' & Hlt' & Hge');
      [done | by rewrite Hl2, Hl1 | lia |].
    repeat split; try done.
    + rewrite Hr', Hr2, Hr1, <- app_assoc. f_equal.
      by rewrite (drop_S _ _ _ Hitem).
    + intros j Hj. rewrite Hlt', Hl2 by lia. apply Hne1. lia.
    + intros j [Hj1 Hj2]. destruct (decide (j = i)) as [->|Hne].
      * rewrite Hlt', Hl2 by lia. apply Heq1. lia.
      * apply Hge'. lia.
Qed.

(** C8. In a batch that nobody cancels, when the external tool of the
    k-th link exits with a non-zero status, so that the server's answer to
    the k-th request is an error, the driver marks link k failed, has still
    sent one request for every link of the batch, in order, and every link
    ends with the status its own response gives it. *)
Theorem failed_link_does_not_halt_batch
  (sessionId : jsstring) (env : nat -> Env) (s : State) (k : nat)
  sid ts title p code stderr written server r :
  neverCancelled env →
  (k < length (links s))%nat →
  code ≠ Some 0 →
  (Orchestrator.resume (Orchestrator.AwaitClose sid ts title p)
     (Orchestrator.ChildClose code stderr written) server).2.1 = Some r →
  fetched (env k) = Responded r →
  let s' := startProcessing sessionId false env s in
  status <$> links s' !! k = Some FAILED
  ∧ requests s' = requests s ++ (requestFor sessionId <$> links s)
  ∧ length (links s') = length (links s)
  ∧ (∀ j, j < length (links s) →
          status <$> links s' !! j = Some (outcome (env j)))%nat.
Proof.
  intros Hquiet Hk Hcode Hresp Hfetch s'.
  assert (ok r = false) as Hok.
  { rewrite CancellationSpec.resume_close in Hresp.
    destruct code as [[|c]|]; [done| |]; by injection Hresp as <-. }
  assert (outcome (env k) = FAILED) as Hout.
  { unfold outcome. by rewrite Hfetch, Hok. }
  subst s'. unfold startProcessing.
  destruct (links s) as [|l ls] eqn:Hlinks; [simpl in Hk; lia|].
  rewrite <- Hlinks in *.
  set (s0 := mkState _ false (requests s) (delays s)).
  destruct (loop_quiet sessionId (links s) env Hquiet (length (links s)) 0 s0)
    as (_ & Hr & Hl & _ & Hst);
    [done | by subst s0; simpl; rewrite length_fmap | done |].
  repeat split.
  - rewrite <- Hout. apply Hst. lia.
  - exact Hr.
  - exact Hl.
  - intros j Hj. apply Hst. lia.
Qed.

(** Three links; the tool fails on the second one. *)
Definition sampleBatch : State :=
  mkState [ mkItem 2 (lit "https://youtu.be/a") PENDING None;
            mkItem 3 (lit "https://youtu.be/b") PENDING None;
            mkItem 5 (lit "https://youtu.be/c") PENDING None ]
          false [] 0.

Definition toolFailure : Orchestrator.Response :=
  Orchestrator.Status500 (lit "Failed to download/convert video")
                         (lit "yt-dlp exited with code 1: ERROR").

Definition sampleEnv (i : nat) : Env :=
  mkEnv (if decide (i = 1%nat) then Responded toolFailure
         else Responded (Orchestrator.Audio (lit "song.mp3") 10))
        false None false false.

Lemma failed_link_does_not_halt_batch_witness :
  status <$> links (startProcessing (lit "s") false sampleEnv sampleBatch)
  = [SAVED; FAILED; SAVED]
  ∧ length (requests (startProcessing (lit "s") false sampleEnv sampleBatch))
    = 3%nat.
Proof.
  pose proof (failed_link_does_not_halt_batch (lit "s") sampleEnv sampleBatch 1
                (Some (lit "s")) 100 (lit "song") 0 (Some 1) (lit "ERROR") []
                (Orchestrator.initial 100) toolFailure) as H.
  destruct H as (Hk & Hreq & _ & _).
  - intros i. repeat split.
  - simpl. lia.
  - discriminate.
  - reflexivity.
  - reflexivity.
  - split; [reflexivity|]. rewrite Hreq. reflexivity.
Defined.

End BatchDriverSpec.

(** * Further properties of the code *)

From Stdlib Require Import Sorted.

(** ** Trimming and searching *)

Module TrimFacts.

(** [dropWhile] over a string extended by one code unit. *)
Lemma dropWhile_snoc p (l : jsstring) (c : N) :
  dropWhile p (l ++ [c])
  = match dropWhile p l with
    | [] => if p c then [] else [c]
    | r => r ++ [c]
    end.
Proof.
  induction l as [|a l IH]; simpl; [done|].
  destruct (p a); [exact IH | done].
Qed.

(** [trimEnd] read from the front of the string. *)
Lemma trimEnd_cons (c : N) (t : jsstring) :
  trimEnd (c :: t)
  = match trimEnd t with
    | [] => if isWhiteSpace c then [] else [c]
    | r => c :: r
    end.
Proof.
  unfold trimEnd. simpl. rewrite dropWhile_snoc.
  destruct (dropWhile isWhiteSpace (rev t)) as [|a r] eqn:E; simpl.
  - by destruct (isWhiteSpace c).
  - rewrite rev_unit. simpl.
    destruct (rev r ++ [a]) eqn:E'; [|done].
    by apply app_eq_nil in E' as [_ ?].
Qed.

Lemma dropWhile_idem p (s : jsstring) : dropWhile p (dropWhile p s) = dropWhile p s.
Proof.
  induction s as [|c s IH]; simpl; [done|].
  destruct (p c) eqn:E; [done|]. simpl. by rewrite E.
Qed.

(** A string that does not start with white space still does not after
    [trimEnd]. *)
Lemma trimStart_trimEnd (s : jsstring) :
  trimStart s = s → trimStart (trimEnd s) = trimEnd s.
Proof.
  destruct s as [|c t]; [done|]. unfold trimStart. simpl.
  destruct (isWhiteSpace c) eqn:Hc.
  - intros Heq. exfalso.
    assert (length (dropWhile isWhiteSpace t) ≤ length t)%nat as Hle.
    { clear. induction t as [|a t IH]; simpl; [lia|].
      destruct (isWhiteSpace a); simpl; lia. }
    rewrite Heq in Hle. simpl in Hle. lia.
  - intros _. rewrite trimEnd_cons.
    destruct (trimEnd t); rewrite ?Hc; simpl; by rewrite Hc.
Qed.

Lemma trimEnd_idem (s : jsstring) : trimEnd (trimEnd s) = trimEnd s.
Proof.
  unfold trimEnd. by rewrite rev_involutive, dropWhile_idem.
Qed.

(** Trimming twice is trimming once. *)
Lemma trim_idem (s : jsstring) : trim (trim s) = trim s.
Proof.
  unfold trim.
  rewrite (trimStart_trimEnd (trimStart s)) by apply dropWhile_idem.
  apply trimEnd_idem.
Qed.

(** A pattern free of white space is found in a string exactly when it
    is found in the trimmed string. *)
Lemma startsWith_trimEnd (s p : jsstring) :
  Forall (λ c, isWhiteSpace c = false) p →
  startsWith (trimEnd s) p = startsWith s p.
Proof.
  intros Hp. revert s. induction Hp as [|h p Hh _ IH]; intros s.
  - by destruct (trimEnd s), s.
  - destruct s as [|c t]; [done|]. rewrite trimEnd_cons.
    destruct (trimEnd t) as [|a r] eqn:E.
    + destruct (isWhiteSpace c) eqn:Hc; simpl.
      * destruct (N.eqb_spec h c) as [->|]; [congruence | done].
      * specialize (IH t). rewrite E in IH. by rewrite <- IH.
    + simpl. specialize (IH t). rewrite E in IH. by rewrite <- IH.
Qed.

Lemma includes_trimEnd (s p : jsstring) :
  p ≠ [] → Forall (λ c, isWhiteSpace c = false) p →
  includes (trimEnd s) p = includes s p.
Proof.
  intros Hne Hp. induction s as [|c t IH]; [done|].
  pose proof (startsWith_trimEnd (c :: t) p Hp) as Hsw.
  rewrite trimEnd_cons in *.
  destruct (trimEnd t) as [|a r] eqn:E.
  - destruct (isWhiteSpace c) eqn:Hc.
    + simpl. rewrite <- IH. simpl in Hsw. rewrite <- Hsw.
      destruct p; [done|]. reflexivity.
    + change (includes [c] p) with (startsWith [c] p || includes [] p).
      change (includes (c :: t) p) with (startsWith (c :: t) p || includes t p).
      by rewrite Hsw, <- IH.
  - change (includes (c :: a :: r) p)
      with (startsWith (c :: a :: r) p || includes (a :: r) p).
    change (includes (c :: t) p) with (startsWith (c :: t) p || includes t p).
    by rewrite Hsw, <- IH.
Qed.

Lemma includes_trimStart (s p : jsstring) :
  p ≠ [] → Forall (λ c, isWhiteSpace c = false) p →
  includes (trimStart s) p = includes s p.
Proof.
  intros Hne Hp. unfold trimStart. induction s as [|c t IH]; [done|].
  simpl dropWhile. destruct (isWhiteSpace c) eqn:Hc; [|done].
  rewrite IH.
  change (includes (c :: t) p) with (startsWith (c :: t) p || includes t p).
  destruct p as [|h p]; [done|]. simpl.
  apply Forall_cons in Hp as [Hh _].
  destruct (N.eqb_spec h c) as [->|]; [congruence | done].
Qed.

Lemma includes_trim (s p : jsstring) :
  p ≠ [] → Forall (λ c, isWhiteSpace c = false) p →
  includes (trim s) p = includes s p.
Proof.
  intros Hne Hp. unfold trim.
  by rewrite includes_trimEnd, includes_trimStart.
Qed.

End TrimFacts.

(** ** Link extractor: what every answer looks like *)

Module LinkExtractorMore.

Import LinkExtractor JSFacts TrimFacts.

(** What the handler lets through: a non-empty link without surrounding
    white space that contains one of the two host markers. *)
Definition wellFormedLink (l : jsstring) : Prop :=
  l ≠ [] ∧ trim l = l
  ∧ (includes l youtube_com || includes l youtu_be) = true.

Lemma marker_no_space_youtube :
  youtube_com ≠ [] ∧ Forall (λ c, isWhiteSpace c = false) youtube_com.
Proof. split; [done|]. vm_compute. repeat constructor. Qed.

Lemma marker_no_space_youtu :
  youtu_be ≠ [] ∧ Forall (λ c, isWhiteSpace c = false) youtu_be.
Proof. split; [done|]. vm_compute. repeat constructor. Qed.

Section Answers.

Variable toUpperCase : jsstring -> jsstring.

(** One turn of the loop pushes nothing or one well-formed link under the
    current row number. *)
Lemma visit_cases (r : record) (links : list LinkRecord) (n : N) :
  visit toUpperCase r links n = links
  ∨ ∃ l, visit toUpperCase r links n = links ++ [{| row := n; link := l |}]
         ∧ wellFormedLink l.
Proof.
  unfold visit. destruct (find _ _) as [col|]; [|by left].
  destruct (truthy col && truthy_opt (get r col)); [|by left].
  destruct (includes _ youtube_com || includes _ youtu_be) eqn:Hinc; [|by left].
  right. eexists. split; [reflexivity|]. repeat split.
  - intros Hnil. rewrite Hnil in Hinc. simpl in Hinc. discriminate.
  - apply trim_idem.
  - exact Hinc.
Qed.

Lemma consume_done_shape (rows : list record) (acc : list LinkRecord) (n : N) :
  ∃ new, consume toUpperCase (yields rows Done) acc n = inr (acc ++ new)
         ∧ (length new ≤ length rows)%nat
         ∧ Forall (λ l, wellFormedLink (link l)) new
         ∧ Forall (λ l, n <= row l < n + N.of_nat (length rows)) new
         ∧ StronglySorted N.lt (row <$> new).
Proof.
  revert acc n. induction rows as [|r rows IH]; intros acc n; simpl.
  - exists []. rewrite app_nil_r. repeat split; constructor.
  - destruct (IH (visit toUpperCase r acc n) (n + 1))
      as (new & Heq & Hlen & Hgood & Hrange & Hsorted).
    rewrite Heq.
    destruct (visit_cases r acc n) as [->|(l & -> & Hl)].
    + exists new. repeat split; [lia | done | | done].
      eapply Forall_impl; [exact Hrange|]. simpl. intros; lia.
    + exists ({| row := n; link := l |} :: new). rewrite <- app_assoc.
      repeat split; simpl; [lia | by constructor | |].
      * constructor; [simpl; lia|].
        eapply Forall_impl; [exact Hrange|]. simpl. intros; lia.
      * constructor; [done|]. apply Forall_fmap.
        eapply Forall_impl; [exact Hrange|]. simpl. intros; lia.
Qed.

(** X1. Whatever the records, the answer lists at most one link per data
    row, [totalLinks] is the length of the list, and the row numbers are
    strictly increasing, from 2 up to the number of data rows plus 1. *)
Theorem parse_csv_rows_increasing
  (rows : list record) (success : bool) (links : list LinkRecord) (total : nat) :
  parse_csv toUpperCase (Some (yields rows Done)) = Json success links total →
  success = true
  ∧ total = length links
  ∧ (length links ≤ length rows)%nat
  ∧ StronglySorted N.lt (row <$> links)
  ∧ Forall (λ l, 2 <= row l < 2 + N.of_nat (length rows)) links.
Proof.
  unfold parse_csv.
  destruct (consume_done_shape rows [] 2) as (new & -> & Hlen & _ & Hr & Hs).
  simpl. intros [= <- <- <-]. done.
Qed.

(** X2. Whatever the parser yields, every link of a successful answer is
    non-empty, has no leading or trailing white space, and contains
    youtube.com or youtu.be. *)
Theorem parse_csv_links_well_formed
  (parser : Parser) (success : bool) (links : list LinkRecord) (total : nat) :
  parse_csv toUpperCase (Some parser) = Json success links total →
  Forall (λ l, wellFormedLink (link l)) links.
Proof.
  unfold parse_csv.
  destruct (LinkExtractorSpec.parser_shape parser) as [rows [->|[m ->]]].
  - destruct (consume_done_shape rows [] 2) as (new & -> & _ & Hgood & _).
    simpl. by intros [= _ <- _].
  - by rewrite LinkExtractorSpec.consume_yields_throw.
Qed.

(** X3. White space around a value does not decide whether its row is
    kept: a row with a value in the link column is kept exactly when the
    raw value contains youtube.com or youtu.be, and the link returned is
    the trimmed value. *)
Theorem visit_raw_value
  (r : record) (col v : jsstring) (links : list LinkRecord) (n : N) :
  find (isLinks toUpperCase) (keys r) = Some col →
  truthy col = true →
  get r col = Some v →
  visit toUpperCase r links n
  = if includes v youtube_com || includes v youtu_be
    then links ++ [{| row := n; link := trim v |}]
    else links.
Proof.
  intros Hfind Hcol Hget. unfold visit. rewrite Hfind, Hcol, Hget. simpl.
  destruct marker_no_space_youtube as [Hy1 Hy2].
  destruct marker_no_space_youtu as [Hb1 Hb2].
  rewrite !includes_trim by done.
  destruct v as [|c v]; [done|]. reflexivity.
Qed.

End Answers.

Definition mixedRows : list record :=
  [ [(lit "title", lit "one"); (lit "links", lit " https://youtu.be/abc ")];
    [(lit "title", lit "two"); (lit "links", lit "")];
    [(lit "title", lit "three"); (lit "links", lit "https://www.youtube.com/watch?v=1")] ].

Lemma parse_csv_rows_increasing_witness :
  StronglySorted N.lt [2; 4].
Proof.
  apply (parse_csv_rows_increasing asciiUpper mixedRows true
           [ {| row := 2; link := lit "https://youtu.be/abc" |};
             {| row := 4; link := lit "https://www.youtube.com/watch?v=1" |} ] 2).
  vm_compute. reflexivity.
Defined.

Lemma parse_csv_links_well_formed_witness :
  Forall (λ l, wellFormedLink (link l))
    [ {| row := 2; link := lit "https://youtu.be/abc" |};
      {| row := 4; link := lit "https://www.youtube.com/watch?v=1" |} ].
Proof.
  apply (parse_csv_links_well_formed asciiUpper
           (yields mixedRows Done) true _ 2).
  vm_compute. reflexivity.
Defined.

Lemma visit_raw_value_witness :
  visit asciiUpper
    [(lit "name", lit "x"); (lit "Links", lit "  https://youtu.be/abc ")] [] 7
  = [{| row := 7; link := lit "https://youtu.be/abc" |}].
Proof.
  rewrite (visit_raw_value asciiUpper _ (lit "Links")
             (lit "  https://youtu.be/abc ")); reflexivity.
Defined.

End LinkExtractorMore.

(** ** Orchestrator: the temp directory during one attempt *)

Module DownloadMore.

Import Orchestrator OrchestratorFacts DownloadSpec.

Lemma startsWith_app (p x : jsstring) : startsWith (p ++ x) p = true.
Proof.
  induction p as [|c p IH]; simpl; [by destruct x|]. by rewrite N.eqb_refl.
Qed.

(** The expected path carries the attempt's prefix. *)
Lemma expected_prefix ts : startsWith (expectedMp3 ts) (audioPrefix ts) = true.
Proof. apply startsWith_app. Qed.

Lemma statSize_elem (d : Dir) (name : jsstring) :
  name ∈ names d → ∃ size, statSize d name = Some size.
Proof.
  induction d as [|[n sz] d IH]; simpl.
  - by intros ?%elem_of_nil.
  - intros Hin. case_decide; [by eauto|].
    apply elem_of_cons in Hin as [->|Hin]; [done | by apply IH].
Qed.

Lemma unlinkSync_cons (d : Dir) (n name : jsstring) (sz : N) :
  unlinkSync ((n, sz) :: d) name
  = if decide (n = name) then unlinkSync d name else (n, sz) :: unlinkSync d name.
Proof.
  unfold unlinkSync, Dir. rewrite filter_cons. simpl.
  destruct (decide (n = name)); by case_decide.
Qed.

Lemma statSize_unlink_ne (d : Dir) (name f : jsstring) :
  f ≠ name → statSize (unlinkSync d name) f = statSize d f.
Proof.
  intros Hne. induction d as [|[n sz] d IH]; [done|].
  rewrite unlinkSync_cons. simpl.
  destruct (decide (n = name)) as [->|Hn]; simpl.
  - rewrite IH. by rewrite decide_False.
  - by rewrite IH.
Qed.

Lemma statSize_cleanup_ne (d : Dir) (name f : jsstring) :
  f ≠ name → statSize (cleanupFile d name) f = statSize d f.
Proof.
  intros Hne. unfold cleanupFile. destruct (existsSync d name); [|done].
  by apply statSize_unlink_ne.
Qed.

Lemma unlinkSync_absent_id (d : Dir) (name : jsstring) :
  name ∉ names d → unlinkSync d name = d.
Proof.
  induction d as [|[n sz] d IH]; [done|]. simpl. intros Hn.
  apply not_elem_of_cons in Hn as [Hne Hn].
  rewrite unlinkSync_cons, decide_False by done. by rewrite IH.
Qed.

(** Renaming onto a free name carries the size along. *)
Lemma statSize_rename_new (d : Dir) (old new : jsstring) :
  new ∉ names d → statSize (renameSync d old new) new = statSize d old.
Proof.
  intros Hnew. unfold renameSync. rewrite unlinkSync_absent_id by done.
  induction d as [|[n sz] d IH]; [done|]. simpl in *.
  apply not_elem_of_cons in Hnew as [Hne Hnew].
  destruct (decide (n = old)) as [->|Hn]; simpl.
  - by rewrite decide_True.
  - rewrite decide_False by done. by apply IH.
Qed.

Lemma statSize_rename_other (d : Dir) (old new f : jsstring) :
  f ≠ old → f ≠ new → statSize (renameSync d old new) f = statSize d f.
Proof.
  intros Ho Hn. unfold renameSync.
  rewrite <- (statSize_unlink_ne d new f Hn).
  induction (unlinkSync d new) as [|[n sz] d' IH]; [done|].
  rewrite fmap_cons. simpl fst. simpl snd.
  destruct (decide (n = old)) as [->|Hne]; simpl.
  - rewrite !decide_False by done. exact IH.
  - destruct (decide (n = f)); [done | exact IH].
Qed.

Lemma rename_old_gone (d : Dir) (old new : jsstring) :
  old ≠ new → old ∉ names (renameSync d old new).
Proof.
  intros Hne. unfold renameSync, names. rewrite <- list_fmap_compose.
  intros ((n & sz) & Heq & _)%list_elem_of_fmap. simpl in Heq.
  destruct (decide (n = old)); simpl in Heq; congruence.
Qed.

Lemma length_rename (d : Dir) (old new : jsstring) :
  new ∉ names d → length (renameSync d old new) = length d.
Proof.
  intros Hnew. unfold renameSync. rewrite unlinkSync_absent_id by done.
  apply length_fmap.
Qed.

Lemma existsSync_false (d : Dir) (name : jsstring) :
  existsSync d name = false → name ∉ names d.
Proof. unfold existsSync. by intros ?%bool_decide_eq_false. Qed.

Lemma existsSync_true (d : Dir) (name : jsstring) :
  existsSync d name = true → name ∈ names d.
Proof. unfold existsSync. by intros ?%bool_decide_eq_true. Qed.

(** The head of the listing filtered by prefix is a file of the
    directory that carries the prefix. *)
Lemma first_candidate ts (d : Dir) (f : jsstring) (rest : list jsstring) :
  filter (λ f, startsWith f (audioPrefix ts)) (names d) = f :: rest →
  f ∈ names d ∧ startsWith f (audioPrefix ts) = true.
Proof.
  intros Hf.
  assert (f ∈ filter (λ f, startsWith f (audioPrefix ts)) (names d)) as Hin
    by (rewrite Hf; apply list_elem_of_here).
  apply list_elem_of_filter in Hin as [Hp Hin]. split; [done|].
  by apply Is_true_true.
Qed.

(** After a file check that passes, the expected path exists. *)
Lemma fileCheck_stat ts (d d' : Dir) :
  fileCheck ts d = Some d' → ∃ size, statSize d' (expectedMp3 ts) = Some size.
Proof.
  unfold fileCheck. destruct (existsSync d (expectedMp3 ts)) eqn:Hex.
  - intros [= <-]. by apply statSize_elem, existsSync_true.
  - destruct (filter _ _) as [|f rest] eqn:Hf; [done|].
    destruct (first_candidate ts d f rest Hf) as [Hin _].
    case_decide as Heq; intros [= <-].
    + apply statSize_elem. by rewrite <- Heq.
    + rewrite statSize_rename_new by by apply existsSync_false.
      by apply statSize_elem.
Qed.

Lemma fileCheck_produced ts (d d' : Dir) :
  fileCheck ts d = Some d' → fileProduced ts d = true.
Proof.
  unfold fileCheck, fileProduced. intros Hc. apply existsb_exists.
  destruct (existsSync d (expectedMp3 ts)) eqn:Hex.
  - exists (expectedMp3 ts). split; [|apply expected_prefix].
    by apply list_elem_of_In, existsSync_true.
  - destruct (filter _ _) as [|f rest] eqn:Hf; [done|].
    destruct (first_candidate ts d f rest Hf) as [Hin Hp].
    exists f. split; [by apply list_elem_of_In | done].
Qed.

(** The file check touches no file outside the attempt's prefix. *)
Lemma fileCheck_other ts (d d' : Dir) (f : jsstring) :
  fileCheck ts d = Some d' → startsWith f (audioPrefix ts) = false →
  statSize d' f = statSize d f.
Proof.
  unfold fileCheck. intros Hc Hf. destruct (existsSync d (expectedMp3 ts)).
  - by injection Hc as <-.
  - destruct (filter _ _) as [|a rest] eqn:Ha; [done|].
    destruct (first_candidate ts d a rest Ha) as [_ Hp].
    case_decide; injection Hc as <-; [done|].
    apply statSize_rename_other; intros ->; [congruence|].
    rewrite expected_prefix in Hf. discriminate.
Qed.

Lemma tempDir_catchBlock p ts m s :
  tempDir (catchBlock p ts m s).1
  = cleanupFile (tempDir s) (expectedMp3 ts).
Proof.
  unfold catchBlock. simpl. destruct p as [p|]; [|done].
  case_bool_decide; [done|]. unfold kill. by case_bool_decide.
Qed.

Lemma not_prefix_not_expected ts (f : jsstring) :
  startsWith f (audioPrefix ts) = false → f ≠ expectedMp3 ts.
Proof. intros Hf ->. rewrite expected_prefix in Hf. discriminate. Qed.

Lemma tempDir_afterDownload_other sid ts title p s f :
  startsWith f (audioPrefix ts) = false →
  statSize (tempDir (afterDownload sid ts title p s).1) f = statSize (tempDir s) f.
Proof.
  intros Hf. pose proof (not_prefix_not_expected ts f Hf) as Hne.
  unfold afterDownload. destruct (fileCheck ts (tempDir s)) as [d|] eqn:Hc.
  - pose proof (fileCheck_other ts _ _ f Hc Hf) as Hd. cbv zeta.
    destruct (isCancelled _ _).
    { simpl. by rewrite statSize_cleanup_ne. }
    destruct (encodeURIComponent _);
      [destruct (statSize d (expectedMp3 ts)); [done|]|];
      rewrite tempDir_catchBlock; simpl; by rewrite statSize_cleanup_ne.
  - rewrite tempDir_catchBlock. by rewrite statSize_cleanup_ne.
Qed.

Lemma tempDir_closed sid p written s :
  tempDir (closed sid p written s) = foldl writeFile (tempDir s) written.
Proof. reflexivity. Qed.

Lemma isCancelled_closed sid sid' p written s :
  isCancelled sid (closed sid' p written s) = isCancelled sid s.
Proof. reflexivity. Qed.

(** X4. When the subprocess closes, the handler answers with audio
    exactly when the exit status is 0, the tool has left a file under the
    attempt's prefix, and the session is not marked cancelled; for a title
    the handler resolved itself, encoding the file name and reading the
    file's size never fail. *)
Theorem audio_exactly_when sid ts out p code stderr written s :
  (∃ xFilename len,
     (resume (AwaitClose sid ts (resolveTitle ts out) p)
             (ChildClose code stderr written) s).2.1
     = Some (Audio xFilename len))
  ↔ code = Some 0
    ∧ fileProduced ts (foldl writeFile (tempDir s) written) = true
    ∧ isCancelled sid s = false.
Proof.
  rewrite CancellationSpec.resume_close. split.
  - intros (x & len & Hr). destruct code as [[|c]|]; try done.
    unfold afterDownload in Hr. rewrite tempDir_closed in Hr.
    destruct (fileCheck _ _) as [d|] eqn:Hc; [|done].
    cbv zeta in Hr. rewrite isCancelled_withTemp, isCancelled_closed in Hr.
    destruct (isCancelled sid s); [done|].
    repeat split. by eapply fileCheck_produced.
  - intros (-> & Hfile & Hc). unfold afterDownload. rewrite tempDir_closed.
    destruct (fileProduced_checked _ _ Hfile) as [d Hd]. rewrite Hd.
    cbv zeta. rewrite isCancelled_withTemp, isCancelled_closed, Hc.
    rewrite encode_filename.
    destruct (fileCheck_stat _ _ _ Hd) as [size ->]. by eauto.
Qed.

(** X5. When the expected file is missing and the tool has left its
    output under another name with the attempt's prefix, the first such
    file of the directory listing is renamed to the expected path and
    streamed: the content length is that file's size, the old name is
    gone, and no file is added or lost. *)
Theorem recovery_renames_first
  sid ts out p stderr written s (f : jsstring) (rest : list jsstring) size :
  isCancelled sid s = false →
  existsSync (foldl writeFile (tempDir s) written) (expectedMp3 ts) = false →
  filter (λ f, startsWith f (audioPrefix ts))
         (names (foldl writeFile (tempDir s) written)) = f :: rest →
  statSize (foldl writeFile (tempDir s) written) f = Some size →
  ∃ s',
    resume (AwaitClose sid ts (resolveTitle ts out) p)
           (ChildClose (Some 0) stderr written) s
    = (s', (Some (Audio (resolveTitle ts out ++ lit ".mp3") size),
            Some (AwaitStream ts)))
    ∧ (f ∉ names (tempDir s'))
    ∧ statSize (tempDir s') (expectedMp3 ts) = Some size
    ∧ length (tempDir s') = length (foldl writeFile (tempDir s) written).
Proof.
  intros Hc Hex Hf Hsize. rewrite CancellationSpec.resume_close.
  unfold afterDownload. rewrite tempDir_closed.
  set (disk := foldl writeFile (tempDir s) written) in *.
  destruct (first_candidate ts disk f rest Hf) as [Hin _].
  pose proof (existsSync_false _ _ Hex) as Hfree.
  assert (f ≠ expectedMp3 ts) as Hne by (intros ->; done).
  unfold fileCheck. rewrite Hex, Hf, decide_False by done.
  cbv zeta. rewrite isCancelled_withTemp, isCancelled_closed, Hc.
  rewrite encode_filename, statSize_rename_new, Hsize by done.
  eexists. split; [reflexivity|]. simpl.
  split; [by apply rename_old_gone|].
  split; [by rewrite statSize_rename_new | by apply length_rename].
Qed.

Lemma recovery_renames_first_witness :
  ∃ s',
    resume (AwaitClose (Some (lit "s")) 100 (resolveTitle 100 None) 0)
           (ChildClose (Some 0) []
              [(lit "audio_100.mp3.mp3", 42); (lit "audio_100.webm", 7)])
           (initial 100)
    = (s', (Some (Audio (lit "audio_100.mp3") 42), Some (AwaitStream 100)))
    ∧ (lit "audio_100.mp3.mp3" ∉ names (tempDir s'))
    ∧ statSize (tempDir s') (expectedMp3 100) = Some 42
    ∧ length (tempDir s') = 2%nat.
Proof.
  apply (recovery_renames_first (Some (lit "s")) 100 None 0 []
           [(lit "audio_100.mp3.mp3", 42); (lit "audio_100.webm", 7)]
           (initial 100) (lit "audio_100.mp3.mp3") [lit "audio_100.webm"] 42);
    reflexivity.
Defined.

(** X6. A download handler never removes, renames or overwrites a file
    whose name does not start with its own [audio_<timestamp>] prefix:
    after every segment such a file has the size it had on disk when the
    segment began (after the tool's writes, for the close event). *)
Theorem other_files_untouched sid ts title p s (f : jsstring) :
  startsWith f (audioPrefix ts) = false →
  (∀ code stderr written,
     statSize (tempDir (resume (AwaitClose sid ts title p)
                               (ChildClose code stderr written) s).1) f
     = statSize (foldl writeFile (tempDir s) written) f)
  ∧ (∀ message,
       statSize (tempDir (resume (AwaitClose sid ts title p)
                                 (ChildError message) s).1) f
       = statSize (tempDir s) f)
  ∧ (∀ e, statSize (tempDir (resume (AwaitStream ts) e s).1) f
          = statSize (tempDir s) f)
  ∧ (∀ e, statSize (tempDir (resume (AwaitTitle sid ts) e s).1) f
          = statSize (tempDir s) f).
Proof.
  intros Hf. pose proof (not_prefix_not_expected ts f Hf) as Hne.
  split; [|split; [|split]].
  - intros code stderr written. rewrite CancellationSpec.resume_close.
    destruct code as [[|c]|].
    + by rewrite tempDir_afterDownload_other.
    + rewrite tempDir_catchBlock. by rewrite statSize_cleanup_ne.
    + rewrite tempDir_catchBlock. by rewrite statSize_cleanup_ne.
  - intros message. rewrite CancellationSpec.resume_error.
    rewrite tempDir_catchBlock. by rewrite statSize_cleanup_ne.
  - intros e. destruct e; try done; simpl; by rewrite statSize_cleanup_ne.
  - intros e. destruct e; try done. simpl.
    destruct (isCancelled sid s); [done|]. by destruct (truthy_opt sid).
Qed.

Lemma other_files_untouched_witness :
  statSize
    (tempDir (resume (AwaitClose (Some (lit "s")) 100 (lit "song") 0)
                     (ChildClose (Some 1) [] [])
                     (withTemp [(lit "audio_200.mp3", 9)] (initial 100))).1)
    (lit "audio_200.mp3")
  = Some 9.
Proof.
  destruct (other_files_untouched (Some (lit "s")) 100 (lit "song") 0
              (withTemp [(lit "audio_200.mp3", 9)] (initial 100))
              (lit "audio_200.mp3") eq_refl) as [H _].
  rewrite H. reflexivity.
Defined.

End DownloadMore.

(** ** The three cancellation checks of the download handler *)

Module CheckpointSpec.

Import Orchestrator OrchestratorFacts DownloadSpec DownloadMore.

Lemma cleanupFile_names (d : Dir) (name f : jsstring) :
  f ∈ names (cleanupFile d name) → f ∈ names d.
Proof.
  unfold cleanupFile. destruct (existsSync d name); [|done].
  unfold names, unlinkSync.
  intros ((n & sz) & -> & Hin)%list_elem_of_fmap.
  apply list_elem_of_filter in Hin as [_ Hin].
  apply list_elem_of_fmap. by exists (n, sz).
Qed.

(** What the file check leaves when it has found a file: the directory
    itself when the file is at the expected path, else the directory with
    the file renamed to it. *)
Lemma fileCheck_found ts (d : Dir) (f : jsstring) :
  foundFile ts d = Some f →
  fileCheck ts d
  = Some (if existsSync d (expectedMp3 ts) then d
          else renameSync d f (expectedMp3 ts))
  ∧ (existsSync d (expectedMp3 ts) = true → f = expectedMp3 ts)
  ∧ (existsSync d (expectedMp3 ts) = false → f ≠ expectedMp3 ts).
Proof.
  unfold foundFile, fileCheck.
  destruct (existsSync d (expectedMp3 ts)) eqn:Hex.
  - intros [= <-]. by repeat split.
  - destruct (filter _ _) as [|a rest] eqn:Ha; [done|]. intros [= ->].
    destruct (first_candidate ts d f rest Ha) as [Hin _].
    assert (f ≠ expectedMp3 ts) as Hne.
    { intros ->. by apply existsSync_false in Hex. }
    rewrite decide_False by done. by repeat split.
Qed.

Lemma fileCheck_none ts (d : Dir) :
  foundFile ts d = None → fileCheck ts d = None.
Proof.
  unfold foundFile, fileCheck.
  destruct (existsSync d (expectedMp3 ts)); [done|].
  by destruct (filter _ _).
Qed.

(** C3 fails on the code.  The session is marked by a cancel while its
    subprocess runs.  When the subprocess then closes on the signal (exit
    status [null]), the call answers 500, not 499, although the session is
    marked at that moment.  When it closes with status 0 having written
    two files, the call answers 499 and the second file is still in the
    temp directory after the call. *)
Lemma marked_session_answers_500 :
  let sid := Some (lit "s") in
  let spawned := (resume (AwaitTitle sid 100) (TitleQuery None) (initial 100)).1 in
  let marked := cancel sid spawned in
  let k := AwaitClose sid 100 (lit "audio_100") 0 in
  let signalled := resume k (ChildClose None [] []) marked in
  let finished :=
    resume k (ChildClose (Some 0) []
                [(lit "audio_100.mp3", 42); (lit "audio_100.webm", 7)]) marked in
  activeProcesses spawned !! sid = Some 0
  ∧ isCancelled sid marked = true
  ∧ signalled.2
    = (Some (Status500 (lit "Failed to download/convert video")
                       (lit "yt-dlp exited with code null: ")), None)
  ∧ isCancelled sid signalled.1 = true
  ∧ finished.2 = cancelledReply
  ∧ statSize (tempDir finished.1) (lit "audio_100.webm") = Some 7.
Proof. repeat split; reflexivity. Qed.

(** C3, amended.  For a session that is marked cancelled: the check at
    entry (of a call that carries a URL) and the check after the metadata
    query answer 499 and end the call with the server state as it was,
    nothing spawned and nothing written.  The check after the subprocess
    is reached exactly when the subprocess exited with status 0 and the
    file check found a file; it then answers 499 and ends the call, and
    neither the file that was found (under the name the tool gave it) nor
    a file at the expected path is in the temp directory afterwards.  A
    subprocess that closes with any other status, that leaves no file, or
    that could not be spawned, makes the call answer 500 although the
    session is marked. *)
Theorem cancelled_at_checkpoint (sid : option jsstring) (s : Server) :
  isCancelled sid s = true →
  (∀ u, truthy_opt u = true →
        download {| url := u; sessionId := sid |} s = (s, cancelledReply))
  ∧ (∀ ts stdout,
        resume (AwaitTitle sid ts) (TitleQuery stdout) s = (s, cancelledReply))
  ∧ (∀ ts title p stderr written f,
        foundFile ts (foldl writeFile (tempDir s) written) = Some f →
        ∃ s', resume (AwaitClose sid ts title p)
                     (ChildClose (Some 0) stderr written) s
              = (s', cancelledReply)
              ∧ (f ∉ names (tempDir s'))
              ∧ (expectedMp3 ts ∉ names (tempDir s'))
              ∧ tempDir s'
                = cleanupFile
                    (if existsSync (foldl writeFile (tempDir s) written)
                                   (expectedMp3 ts)
                     then foldl writeFile (tempDir s) written
                     else renameSync (foldl writeFile (tempDir s) written)
                                     f (expectedMp3 ts))
                    (expectedMp3 ts))
  ∧ (∀ ts title p stderr written,
        foundFile ts (foldl writeFile (tempDir s) written) = None →
        (resume (AwaitClose sid ts title p)
                (ChildClose (Some 0) stderr written) s).2
        = (Some (Status500 (lit "Failed to download/convert video")
                           (lit "MP3 file was not created")), None))
  ∧ (∀ ts title p code stderr written,
        code ≠ Some 0 →
        (resume (AwaitClose sid ts title p)
                (ChildClose code stderr written) s).2
        = (Some (Status500 (lit "Failed to download/convert video")
                           (exitMessage code stderr)), None))
  ∧ (∀ ts title p message,
        (resume (AwaitClose sid ts title p) (ChildError message) s).2
        = (Some (Status500 (lit "Failed to download/convert video") message),
           None)).
Proof.
  intros Hc. split; [|split; [|split; [|split; [|split]]]].
  - intros u Hu. unfold download. simpl. by rewrite Hu, Hc.
  - intros ts stdout. simpl. by rewrite Hc.
  - intros ts title p stderr written f Hfound.
    rewrite CancellationSpec.resume_close. unfold afterDownload.
    rewrite tempDir_closed.
    destruct (fileCheck_found _ _ _ Hfound) as (-> & Hyes & Hno). cbv zeta.
    rewrite isCancelled_withTemp, isCancelled_closed, Hc.
    eexists. split; [reflexivity|].
    assert (expectedMp3 ts
            ∉ names (cleanupFile
                       (if existsSync (foldl writeFile (tempDir s) written)
                                      (expectedMp3 ts)
                        then foldl writeFile (tempDir s) written
                        else renameSync (foldl writeFile (tempDir s) written)
                                        f (expectedMp3 ts))
                       (expectedMp3 ts))) as Hgone
      by apply cleanupFile_absent.
    split; [|split; [exact Hgone | reflexivity]].
    destruct (existsSync (foldl writeFile (tempDir s) written) (expectedMp3 ts))
      eqn:Hex.
    + by rewrite (Hyes eq_refl).
    + intros Hin%cleanupFile_names.
      by apply (rename_old_gone (foldl writeFile (tempDir s) written)
                                f (expectedMp3 ts) (Hno eq_refl)).
  - intros ts title p stderr written Hnone.
    rewrite CancellationSpec.resume_close. unfold afterDownload.
    rewrite tempDir_closed, (fileCheck_none _ _ Hnone).
    apply catchBlock_result.
  - intros ts title p code stderr written Hcode.
    rewrite CancellationSpec.resume_close.
    destruct code as [[|c]|]; [done | apply catchBlock_result..].
  - intros ts title p message. rewrite CancellationSpec.resume_error.
    apply catchBlock_result.
Qed.

Lemma cancelled_at_checkpoint_witness :
  download sampleRequest (cancel (Some (lit "s")) (initial 100))
  = (cancel (Some (lit "s")) (initial 100), cancelledReply)
  ∧ ∃ s', resume (AwaitClose (Some (lit "s")) 100 (lit "song") 0)
                 (ChildClose (Some 0) [] [(lit "audio_100.mp3.mp3", 42)])
                 (cancel (Some (lit "s")) (initial 100))
          = (s', cancelledReply)
          ∧ (lit "audio_100.mp3.mp3" ∉ names (tempDir s'))
          ∧ (expectedMp3 100 ∉ names (tempDir s'))
          ∧ tempDir s' = [].
Proof.
  destruct (cancelled_at_checkpoint (Some (lit "s"))
              (cancel (Some (lit "s")) (initial 100)) eq_refl)
    as (Hentry & _ & Hlast & _).
  split.
  - apply Hentry. reflexivity.
  - apply (Hlast 100 (lit "song") 0 [] [(lit "audio_100.mp3.mp3", 42)]
                 (lit "audio_100.mp3.mp3")).
    reflexivity.
Defined.

End CheckpointSpec.

(** ** Orchestrator: marks, timers and tracked processes *)

Module CancellationMore.

Import Orchestrator CancellationSpec.

(** The cancellation side of the state: marks, timers and the clock. *)
Definition sameMarks (s s' : Server) : Prop :=
  cancelledSessions s' = cancelledSessions s
  ∧ timers s' = timers s
  ∧ now s' = now s.

(** Every marked session has a pending timer, due at most five minutes
    from now. *)
Definition covered (s : Server) : Prop :=
  ∀ sid, sid ∈ cancelledSessions s →
         ∃ due, (due, sid) ∈ timers s ∧ due <= now s + fiveMinutes.

Lemma sameMarks_catchBlock p ts m s :
  sameMarks s (catchBlock p ts m s).1 ∧ exited (catchBlock p ts m s).1 = exited s.
Proof.
  unfold catchBlock. simpl. destruct p as [p|]; [|done].
  case_bool_decide; [done|]. unfold kill. by case_bool_decide.
Qed.

Lemma sameMarks_afterDownload sid ts title p s :
  sameMarks s (afterDownload sid ts title p s).1
  ∧ exited (afterDownload sid ts title p s).1 = exited s.
Proof.
  unfold afterDownload. destruct (fileCheck _ _) as [d|];
    [|apply sameMarks_catchBlock].
  cbv zeta. destruct (isCancelled _ _); [done|].
  destruct (encodeURIComponent _);
    [destruct (statSize _ _); [done|]|];
    apply (sameMarks_catchBlock _ _ _ (withTemp d s)).
Qed.

Lemma sameMarks_resume k e s : sameMarks s (resume k e s).1.
Proof.
  destruct k as [sid ts|sid ts title p|ts].
  - destruct e; try done. simpl. destruct (isCancelled sid s); [done|].
    by destruct (truthy_opt sid).
  - destruct e as [ |code stderr written|message| | ]; try done.
    + rewrite resume_close.
      destruct code as [[|c]|];
        [apply (sameMarks_afterDownload _ _ _ _ (closed sid p written s))
        |apply (sameMarks_catchBlock _ _ _ (closed sid p written s)) ..].
    + rewrite resume_error.
      apply (sameMarks_catchBlock _ _ _ (closed sid p [] s)).
  - by destruct e.
Qed.

Lemma download_state req s : (download req s).1 = s.
Proof.
  unfold download. destruct (negb _); [done|]. by destruct (isCancelled _ _).
Qed.

(** X7. The download handler never marks or unmarks a session, never
    sets or clears a timer and never moves the clock: only [cancel],
    [clearCancel] and the timers change the cancellation state. *)
Theorem handlers_keep_marks (req : Request) (k : Await) (e : Event) (s : Server) :
  (download req s).1 = s
  ∧ cancelledSessions (resume k e s).1 = cancelledSessions s
  ∧ timers (resume k e s).1 = timers s
  ∧ now (resume k e s).1 = now s.
Proof. split; [apply download_state | apply sameMarks_resume]. Qed.

(** After the close event the session's entry is gone from
    [activeProcesses]. *)
Lemma resume_close_untracked sid ts title p code stderr written s :
  activeProcesses (resume (AwaitClose sid ts title p)
                          (ChildClose code stderr written) s).1 !! sid = None.
Proof.
  rewrite resume_close.
  assert (activeProcesses (closed sid p written s) !! sid = None) as Ha
    by apply lookup_delete_eq.
  destruct code as [[|c]|].
  - by destruct (sameSessions_afterDownload sid ts title p
                   (closed sid p written s)) as (_ & -> & _).
  - by destruct (sameSessions_catchBlock (Some p) ts
                   (exitMessage (Some (N.pos c)) stderr)
                   (closed sid p written s)) as (_ & -> & _).
  - by destruct (sameSessions_catchBlock (Some p) ts (exitMessage None stderr)
                   (closed sid p written s)) as (_ & -> & _).
Qed.

(** [cancel] signals the running process the session tracks. *)
Lemma cancel_kills (sid : option jsstring) (p : N) (s : Server) :
  truthy_opt sid = true →
  activeProcesses s !! sid = Some p →
  p ∉ exited s →
  p ∈ killed (cancel sid s).
Proof.
  intros Hsid Hp Hrun. unfold cancel. rewrite Hsid. simpl. rewrite Hp.
  case_bool_decide as Hk; [done|]. unfold kill. simpl.
  rewrite bool_decide_eq_false_2 by done. simpl.
  apply elem_of_union. left. by apply elem_of_singleton.
Qed.

Lemma cancel_marks (sid : option jsstring) (s : Server) :
  truthy_opt sid = true → isCancelled sid (cancel sid s) = true.
Proof.
  intros Hsid. destruct (cancel_truthy sid s Hsid) as (Hc & _).
  unfold isCancelled. apply bool_decide_eq_true_2. rewrite Hc.
  apply elem_of_union. left. by apply elem_of_singleton.
Qed.

(** X8. When the subprocess has closed or failed to start, whatever the
    outcome, the session tracks no process any more and the handle is
    recorded as exited. *)
Theorem close_untracks sid ts title p s :
  (∀ code stderr written,
     let s' := (resume (AwaitClose sid ts title p)
                       (ChildClose code stderr written) s).1 in
     activeProcesses s' !! sid = None ∧ p ∈ exited s')
  ∧ (∀ message,
       let s' := (resume (AwaitClose sid ts title p) (ChildError message) s).1 in
       activeProcesses s' !! sid = None ∧ p ∈ exited s').
Proof.
  assert (∀ w, activeProcesses (closed sid p w s) !! sid = None
               ∧ p ∈ exited (closed sid p w s)) as Hclosed.
  { intros w. split; [apply lookup_delete_eq|].
    simpl. apply elem_of_union. left. by apply elem_of_singleton. }
  split.
  - intros code stderr written s'. subst s'. rewrite resume_close.
    destruct (Hclosed written) as [Ha He].
    destruct code as [[|c]|].
    + destruct (sameSessions_afterDownload sid ts title p
                  (closed sid p written s)) as (_ & -> & _).
      destruct (sameMarks_afterDownload sid ts title p
                  (closed sid p written s)) as [_ ->]. done.
    + destruct (sameSessions_catchBlock (Some p) ts
                  (exitMessage (Some (N.pos c)) stderr)
                  (closed sid p written s)) as (_ & -> & _).
      destruct (sameMarks_catchBlock (Some p) ts
                  (exitMessage (Some (N.pos c)) stderr)
                  (closed sid p written s)) as [_ ->]. done.
    + destruct (sameSessions_catchBlock (Some p) ts (exitMessage None stderr)
                  (closed sid p written s)) as (_ & -> & _).
      destruct (sameMarks_catchBlock (Some p) ts (exitMessage None stderr)
                  (closed sid p written s)) as [_ ->]. done.
  - intros message s'. subst s'. rewrite resume_error.
    destruct (Hclosed []) as [Ha He].
    destruct (sameSessions_catchBlock (Some p) ts message (closed sid p [] s))
      as (_ & -> & _).
    destruct (sameMarks_catchBlock (Some p) ts message (closed sid p [] s))
      as [_ ->]. done.
Qed.

(** X9. [cancel] on a session that tracks a running process marks the
    session and signals that process; it signals no other process and
    leaves the marks of all other sessions as they are. *)
Theorem cancel_signals_tracked (sid : option jsstring) (p : N) (s : Server) :
  truthy_opt sid = true →
  activeProcesses s !! sid = Some p →
  p ∉ exited s →
  isCancelled sid (cancel sid s) = true
  ∧ p ∈ killed (cancel sid s)
  ∧ (∀ q, q ∈ killed (cancel sid s) → q ∈ killed s ∨ q = p)
  ∧ (∀ sid', sid' ≠ sid → isCancelled sid' (cancel sid s) = isCancelled sid' s).
Proof.
  intros Hsid Hp Hrun.
  destruct (cancel_truthy sid s Hsid) as (Hc & _).
  split; [|split; [|split]].
  - by apply cancel_marks.
  - by apply cancel_kills.
  - intros q [Hq|Hq]%killed_cancel; [by left|]. right. congruence.
  - intros sid' Hne. unfold isCancelled. rewrite Hc.
    apply bool_decide_ext. rewrite elem_of_union, elem_of_singleton.
    split; [intros [?|?]; [done|done] | by right].
Qed.

Lemma cancel_signals_tracked_witness :
  0 ∈ killed (cancel (Some (lit "s"))
                (resume (AwaitTitle (Some (lit "s")) 100) (TitleQuery None)
                        (initial 100)).1).
Proof.
  pose (s1 := (resume (AwaitTitle (Some (lit "s")) 100) (TitleQuery None)
                      (initial 100)).1).
  apply (cancel_signals_tracked (Some (lit "s")) 0 s1 eq_refl eq_refl).
  exact (bool_decide_eq_false_1 (0 ∈ exited s1) eq_refl).
Defined.

Lemma covered_sameMarks s s' : sameMarks s s' → covered s → covered s'.
Proof.
  intros (Hc & Ht & Hn) Hcov sid. rewrite Hc, Ht, Hn. apply Hcov.
Qed.

Lemma covered_cancel sid s : covered s → covered (cancel sid s).
Proof.
  intros Hcov. destruct (truthy_opt sid) eqn:Hsid; [|by rewrite cancel_falsy].
  destruct (cancel_truthy sid s Hsid) as (Hc & Ht & Hn & _).
  intros x. rewrite Hc, Ht, Hn.
  intros [->%elem_of_singleton|Hx]%elem_of_union.
  - exists (now s + fiveMinutes). split; [|lia].
    apply elem_of_app. right. apply list_elem_of_here.
  - destruct (Hcov x Hx) as (due & Hin & Hle). exists due. split; [|done].
    apply elem_of_app. by left.
Qed.

Lemma covered_clearCancel sid s : covered s → covered (clearCancel sid s).
Proof.
  intros Hcov. unfold clearCancel. destruct (truthy_opt sid); [|done].
  intros x [Hx _]%elem_of_difference. by apply Hcov.
Qed.

Lemma covered_advance t s : covered s → covered (advance t s).
Proof.
  intros Hcov x. rewrite cancelled_advance, now_advance.
  intros [Hx Hn]%elem_of_difference.
  destruct (Hcov x Hx) as (due & Hin & Hle).
  exists due. split; [|lia].
  apply timers_advance_kept; [done|]. simpl.
  destruct (decide (due <= t)) as [Hdue|]; [|lia].
  exfalso. apply Hn. apply elem_of_list_to_set, list_elem_of_fmap.
  exists (due, x). split; [done|]. by apply list_elem_of_filter.
Qed.

Lemma covered_apply s o : covered s → covered (apply s o).
Proof.
  destruct o as [sid|sid|t|req|k e]; simpl.
  - apply covered_cancel.
  - apply covered_clearCancel.
  - apply covered_advance.
  - by rewrite download_state.
  - apply covered_sameMarks, sameMarks_resume.
Qed.

Lemma covered_run ops s : covered s → covered (run ops s).
Proof.
  unfold run. revert s. induction ops as [|o ops IH]; intros s Hc; simpl; [done|].
  apply IH. by apply covered_apply.
Qed.

Lemma covered_initial t0 : covered (initial t0).
Proof. intros sid Hin. by apply not_elem_of_empty in Hin. Qed.

(** X10. The timers are a safety valve: in every state the server can
    get to, each marked session has a pending timer due within five
    minutes, so once five minutes pass without a new [cancel] no session is
    marked. *)
Theorem marks_expire (t0 : N) (ops : list Op) :
  let s := run ops (initial t0) in
  (∀ sid, isCancelled sid s = true →
          ∃ due, (due, sid) ∈ timers s ∧ due <= now s + fiveMinutes)
  ∧ cancelledSessions (advance (now s + fiveMinutes) s) = ∅.
Proof.
  intros s. pose proof (covered_run ops _ (covered_initial t0)) as Hcov.
  fold s in Hcov. split.
  - intros sid Hc. apply Hcov. by apply bool_decide_eq_true in Hc.
  - apply elem_of_equiv_empty_L. intros x. rewrite cancelled_advance.
    intros [Hx Hn]%elem_of_difference.
    destruct (Hcov x Hx) as (due & Hin & Hle). apply Hn.
    apply elem_of_list_to_set, list_elem_of_fmap.
    exists (due, x). split; [done|]. by apply list_elem_of_filter.
Qed.

(** X11. In every state the server can get to, only non-empty string
    identifiers are marked cancelled or track a process ([undefined] and
    the empty string never are), and every tracked handle is one that has
    been spawned. *)
Theorem reachable_well_formed (t0 : N) (ops : list Op) :
  let s := run ops (initial t0) in
  (∀ sid, isCancelled sid s = true → ∃ c rest, sid = Some (c :: rest))
  ∧ (∀ sid p, activeProcesses s !! sid = Some p →
              (∃ c rest, sid = Some (c :: rest)) ∧ p < nextPid s).
Proof.
  intros s. destruct (wf_run ops _ (wf_initial t0)) as [H1 H2]. fold s in H1, H2.
  assert (∀ sid, truthy_opt sid = true → ∃ c rest, sid = Some (c :: rest)) as Ht.
  { intros [[|c rest]|]; try done. by eauto. }
  split.
  - intros sid Hc. apply Ht, H1. by apply bool_decide_eq_true in Hc.
  - intros sid p Hl. destruct (H2 sid p Hl). split; [by apply Ht | done].
Qed.

(** X12. A mark lasts: after [cancel], as long as no timer set earlier
    for the same session comes due, the session stays marked until five
    minutes have passed. *)
Theorem mark_lasts (sid : option jsstring) (s : Server) (t : N) :
  truthy_opt sid = true →
  (∀ due, (due, sid) ∈ timers s → t < due) →
  t < now s + fiveMinutes →
  isCancelled sid (advance t (cancel sid s)) = true.
Proof.
  intros Hsid Hold Ht. destruct (cancel_truthy sid s Hsid) as (Hc & Htm & _).
  unfold isCancelled. apply bool_decide_eq_true_2.
  rewrite cancelled_advance, Hc, Htm. apply elem_of_difference. split.
  - apply elem_of_union. left. by apply elem_of_singleton.
  - intros ((due & x) & Heq & Hin)%elem_of_list_to_set%list_elem_of_fmap.
    simpl in Heq. subst x.
    apply list_elem_of_filter in Hin as [Hdue Hin]. simpl in Hdue.
    apply elem_of_app in Hin as [Hin|Hin].
    + specialize (Hold due Hin). lia.
    + apply list_elem_of_singleton in Hin. injection Hin as ->. lia.
Qed.

Lemma mark_lasts_witness :
  isCancelled (Some (lit "s"))
    (advance 299999 (cancel (Some (lit "s")) (initial 0))) = true.
Proof.
  apply (mark_lasts (Some (lit "s")) (initial 0) 299999).
  - reflexivity.
  - intros due Hin. by apply elem_of_nil in Hin.
  - unfold fiveMinutes. simpl. lia.
Defined.

(** X13. A [cancel] that arrives while the subprocess of the session is
    running signals it; when the process then closes without an exit
    status, the call is answered with status 500 and the message
    [yt-dlp exited with code null: ...], not with 499; the session stays
    marked, tracks no process, and no file is left at the expected path. *)
Theorem cancel_during_download
  (sid : option jsstring) (ts : N) (stdout : option jsstring)
  (stderr : jsstring) (written : Dir) (s : Server) :
  truthy_opt sid = true →
  isCancelled sid s = false →
  nextPid s ∉ exited s →
  let spawned := resume (AwaitTitle sid ts) (TitleQuery stdout) s in
  let k := AwaitClose sid ts (resolveTitle ts stdout) (nextPid s) in
  let s2 := cancel sid spawned.1 in
  spawned.2 = (None, Some k)
  ∧ nextPid s ∈ killed s2
  ∧ ∃ s3,
      resume k (ChildClose None stderr written) s2
      = (s3, (Some (Status500 (lit "Failed to download/convert video")
                              (lit "yt-dlp exited with code null: " ++ stderr)),
              None))
      ∧ isCancelled sid s3 = true
      ∧ activeProcesses s3 !! sid = None
      ∧ (expectedMp3 ts ∉ names (tempDir s3)).
Proof.
  intros Hsid Hc Hrun spawned k s2.
  assert (spawned = (withActive (<[sid := nextPid s]> (activeProcesses s))
                                (withNextPid (nextPid s + 1) s),
                     (None, Some k))) as Hsp.
  { subst spawned k. simpl. by rewrite Hc, Hsid. }
  split; [by rewrite Hsp|].
  assert (activeProcesses spawned.1 !! sid = Some (nextPid s)) as Htracked.
  { rewrite Hsp. simpl. apply lookup_insert_eq. }
  assert (nextPid s ∉ exited spawned.1) as Hrun' by by rewrite Hsp.
  pose proof (cancel_kills sid (nextPid s) spawned.1 Hsid Htracked Hrun')
    as Hkill.
  pose proof (cancel_marks sid spawned.1 Hsid) as Hmark.
  split; [exact Hkill|].
  exists (resume k (ChildClose None stderr written) s2).1.
  split; [reflexivity|].
  pose proof (resume_close_untracked sid ts (resolveTitle ts stdout)
                (nextPid s) None stderr written s2) as Huntracked.
  destruct (sameMarks_resume k (ChildClose None stderr written) s2)
    as (Hsame & _).
  split; [|split; [exact Huntracked|]].
  - unfold isCancelled in *. by rewrite Hsame.
  - apply (DownloadSpec.resume_finished_removes k
             (ChildClose None stderr written) s2 _
             (Some (Status500 (lit "Failed to download/convert video")
                              (exitMessage None stderr))) ts);
      [left; by eauto | reflexivity].
Qed.

Lemma cancel_during_download_witness :
  0 ∈ killed (cancel (Some (lit "s"))
                (resume (AwaitTitle (Some (lit "s")) 100) (TitleQuery None)
                        (initial 100)).1).
Proof.
  apply (cancel_during_download (Some (lit "s")) 100 None [] [] (initial 100)
           eq_refl eq_refl).
  exact (bool_decide_eq_false_1 (0 ∈ exited (initial 100)) eq_refl).
Defined.

End CancellationMore.

(** ** Start-up and shutdown: [cleanupTempDir] and the SIGINT handler *)

Module Lifecycle.

Import Orchestrator.

(** [files.forEach(file => fs.unlinkSync(...))] inside the [try] of
    [cleanupTempDir] (lines 392-395).  [unlinkOk file] tells whether
    [unlinkSync] succeeds on that entry; it throws on a subdirectory or
    on a file the server may not remove.  The first call that throws ends
    the loop, and the entries not reached yet stay. *)
Fixpoint sweep (unlinkOk : jsstring → bool) (files : list jsstring) (d : Dir)
  : Dir :=
  match files with
  | [] => d
  | file :: rest =>
      if unlinkOk file then sweep unlinkOk rest (unlinkSync d file) else d
  end.

(** [cleanupTempDir()] (lines 390-400): one [try] around [readdirSync]
    and the loop, with an empty [catch].  [readdirOk] tells whether the
    listing can be read; when it cannot, nothing is removed. *)
Definition cleanupTempDir (readdirOk : bool) (unlinkOk : jsstring → bool)
  (s : Server) : Server :=
  if readdirOk
  then withTemp (sweep unlinkOk (names (tempDir s)) (tempDir s)) s
  else s.

(** One turn of [activeProcesses.forEach] in the SIGINT handler:
    [if (!proc.killed) proc.kill('SIGTERM')]. *)
Definition killActive (s : Server) (entry : option jsstring * N) : Server :=
  if bool_decide (entry.2 ∈ killed s) then s else kill entry.2 s.

(** The SIGINT handler (lines 428-443): every tracked process that has
    not been signalled is, then the temp directory is swept.  The order
    in which the map is walked does not matter to the result. *)
Definition shutdown (readdirOk : bool) (unlinkOk : jsstring → bool)
  (s : Server) : Server :=
  cleanupTempDir readdirOk unlinkOk
    (foldl killActive s (map_to_list (activeProcesses s))).

(** The directory from its first entry that cannot be unlinked on. *)
Fixpoint leftBehind (unlinkOk : jsstring → bool) (d : Dir) : Dir :=
  match d with
  | [] => []
  | entry :: rest => if unlinkOk entry.1 then leftBehind unlinkOk rest else d
  end.

(** A directory with a subdirectory between two files. *)
Definition withSubdirectory : Dir :=
  [(lit "audio_7.mp3", 42); (lit "m", 0); (lit "z.mp3", 9)].

Definition notSubdirectory (file : jsstring) : bool :=
  bool_decide (file ≠ lit "m").

Lemma unlinkSync_names (d : Dir) (a n : jsstring) :
  n ∈ names (unlinkSync d a) → n ∈ names d ∧ n ≠ a.
Proof.
  unfold names, unlinkSync.
  intros ((n' & sz) & -> & Hin)%list_elem_of_fmap.
  apply list_elem_of_filter in Hin as [Hne Hin]. split; [|done].
  apply list_elem_of_fmap. by exists (n', sz).
Qed.

Lemma unlink_all (l : list jsstring) (d : Dir) :
  (∀ n, n ∈ names d → n ∈ l) → foldl unlinkSync d l = [].
Proof.
  revert d. induction l as [|a l IH]; intros d Hall; simpl.
  - destruct d as [|[n sz] d]; [done|].
    specialize (Hall n (list_elem_of_here _ _)). by apply elem_of_nil in Hall.
  - apply IH. intros n [Hin Hne]%unlinkSync_names.
    apply Hall in Hin. apply elem_of_cons in Hin as [->|]; done.
Qed.

Lemma killActive_fold (l : list (option jsstring * N)) (s : Server) :
  let s' := foldl killActive s l in
  tempDir s' = tempDir s
  ∧ exited s' = exited s
  ∧ killed s ⊆ killed s'
  ∧ (∀ q, q ∈ killed s' → q ∈ killed s ∨ q ∈ l.*2)
  ∧ (∀ e, e ∈ l → e.2 ∉ exited s → e.2 ∈ killed s').
Proof.
  revert s. induction l as [|a l IH]; intros s; simpl.
  - repeat split; try done.
    + by left.
    + intros e He. by apply elem_of_nil in He.
  - destruct (IH (killActive s a)) as (Ht & He & Hsub & Hfrom & Hall).
    assert (tempDir (killActive s a) = tempDir s
            ∧ exited (killActive s a) = exited s
            ∧ killed s ⊆ killed (killActive s a)
            ∧ (∀ q, q ∈ killed (killActive s a) → q ∈ killed s ∨ q = a.2)
            ∧ (a.2 ∉ exited s → a.2 ∈ killed (killActive s a)))
      as (Ht1 & He1 & Hsub1 & Hfrom1 & Hone).
    { unfold killActive. case_bool_decide as Hk.
      - repeat split; try done. by left.
      - unfold kill. case_bool_decide as Hx.
        + repeat split; try done. by left.
        + simpl. repeat split.
          * apply union_subseteq_r.
          * intros q [->%elem_of_singleton|?]%elem_of_union; [by right | by left].
          * intros _. apply elem_of_union. left. by apply elem_of_singleton. }
    repeat split.
    + by rewrite Ht.
    + by rewrite He.
    + by etrans.
    + intros q Hq. destruct (Hfrom q Hq) as [Hq'|Hq'].
      * destruct (Hfrom1 q Hq') as [?| ->]; [by left|].
        right. apply list_elem_of_here.
      * right. by apply list_elem_of_further.
    + intros e [->|Hin]%elem_of_cons Hrun.
      * apply Hsub. by apply Hone.
      * apply Hall; [done|]. by rewrite He1.
Qed.

Lemma sweep_all (unlinkOk : jsstring → bool) (l : list jsstring) (d : Dir) :
  (∀ f, f ∈ l → unlinkOk f = true) → sweep unlinkOk l d = foldl unlinkSync d l.
Proof.
  revert d. induction l as [|a l IH]; intros d Hall; simpl; [done|].
  rewrite (Hall a) by apply list_elem_of_here.
  apply IH. intros f Hf. by apply Hall, list_elem_of_further.
Qed.

Lemma sweep_leftBehind (unlinkOk : jsstring → bool) (d : Dir) :
  NoDup (names d) → sweep unlinkOk (names d) d = leftBehind unlinkOk d.
Proof.
  induction d as [|[n sz] d IH]; simpl; [done|].
  intros [Hn Hnd]%NoDup_cons. destruct (unlinkOk n); [|done].
  rewrite DownloadMore.unlinkSync_cons, decide_True by done.
  rewrite DownloadMore.unlinkSync_absent_id by done. by apply IH.
Qed.

Lemma tempDir_shutdown readdirOk unlinkOk (s : Server) :
  tempDir (shutdown readdirOk unlinkOk s)
  = tempDir (cleanupTempDir readdirOk unlinkOk s).
Proof.
  destruct (killActive_fold (map_to_list (activeProcesses s)) s) as (Ht & _).
  unfold shutdown, cleanupTempDir. destruct readdirOk; simpl; by rewrite Ht.
Qed.

Lemma killed_cleanupTempDir readdirOk unlinkOk (s : Server) :
  killed (cleanupTempDir readdirOk unlinkOk s) = killed s.
Proof. unfold cleanupTempDir. by destruct readdirOk. Qed.

(** X14. The sweep of the temp directory, at start-up and at shutdown,
    stops at the first entry that cannot be unlinked: when the listing can
    be read and every entry can be unlinked the directory ends empty,
    whatever files the failed or cancelled attempts have left in it; in
    general what stays is the directory from its first entry that cannot
    be unlinked on; when the listing cannot be read nothing is removed.
    Shutdown sweeps the same way, after it has signalled every tracked
    process that is still running and no process that is not tracked. *)
Theorem shutdown_sweeps (readdirOk : bool) (unlinkOk : jsstring → bool)
  (s : Server) :
  let swept := cleanupTempDir readdirOk unlinkOk s in
  let down := shutdown readdirOk unlinkOk s in
  (readdirOk = true → (∀ f, f ∈ names (tempDir s) → unlinkOk f = true) →
   tempDir swept = [])
  ∧ (readdirOk = true → NoDup (names (tempDir s)) →
     tempDir swept = leftBehind unlinkOk (tempDir s))
  ∧ (readdirOk = false → tempDir swept = tempDir s)
  ∧ tempDir down = tempDir swept
  ∧ (∀ sid p, activeProcesses s !! sid = Some p → p ∉ exited s →
              p ∈ killed down)
  ∧ (∀ q, q ∈ killed down →
          q ∈ killed s ∨ ∃ sid, activeProcesses s !! sid = Some q).
Proof.
  intros swept down.
  destruct (killActive_fold (map_to_list (activeProcesses s)) s)
    as (Ht & He & Hsub & Hfrom & Hall).
  split; [|split; [|split; [|split; [|split]]]].
  - intros -> Hok. subst swept. simpl. rewrite sweep_all by done.
    by apply unlink_all.
  - intros -> Hnd. subst swept. simpl. by apply sweep_leftBehind.
  - by intros ->.
  - apply tempDir_shutdown.
  - intros sid p Hp Hrun. subst down. unfold shutdown.
    rewrite killed_cleanupTempDir.
    apply (Hall (sid, p)); [|done]. by apply elem_of_map_to_list.
  - intros q Hq. subst down. unfold shutdown in Hq.
    rewrite killed_cleanupTempDir in Hq.
    destruct (Hfrom q Hq) as [?|Hin]; [by left|]. right.
    apply list_elem_of_fmap in Hin as ((sid & q') & -> & Hin).
    exists sid. by apply elem_of_map_to_list.
Qed.

Lemma shutdown_sweeps_witness :
  tempDir (shutdown true notSubdirectory
             (withTemp withSubdirectory (initial 100)))
  = [(lit "m", 0); (lit "z.mp3", 9)]
  ∧ tempDir (shutdown true (λ _, true)
               (withTemp withSubdirectory (initial 100)))
    = [].
Proof.
  destruct (shutdown_sweeps true notSubdirectory
              (withTemp withSubdirectory (initial 100)))
    as (_ & Hleft & _ & Hdown & _).
  destruct (shutdown_sweeps true (λ _, true)
              (withTemp withSubdirectory (initial 100)))
    as (Hempty & _ & _ & Hdown' & _).
  split.
  - rewrite Hdown, Hleft; [reflexivity | reflexivity |].
    apply (bool_decide_unpack _). reflexivity.
  - rewrite Hdown', Hempty; [reflexivity | reflexivity | done].
Defined.

End Lifecycle.

(** ** Titles *)

Module TitleMore.

Import Orchestrator OrchestratorFacts.

Lemma titleUnit_not_space (c : N) : isTitleUnit c = true → isWhiteSpace c = false.
Proof.
  unfold isTitleUnit, isWord, isWhiteSpace. intros H.
  rewrite !orb_true_iff, !andb_true_iff, !N.leb_le, !N.eqb_eq in H.
  apply not_true_iff_false.
  rewrite !orb_true_iff, !andb_true_iff, !N.leb_le, !N.eqb_eq. lia.
Qed.

Lemma dropWhile_head p (s : jsstring) :
  Forall (λ c, p c = false) s → dropWhile p s = s.
Proof. intros [|c t Hc _]; simpl; [done|]. by rewrite Hc. Qed.

Lemma trim_no_space (s : jsstring) :
  Forall (λ c, isWhiteSpace c = false) s → trim s = s.
Proof.
  intros Hs. unfold trim, trimStart, trimEnd.
  rewrite (dropWhile_head _ s Hs).
  rewrite dropWhile_head by by apply Forall_rev.
  apply rev_involutive.
Qed.

Lemma removeSpecial_units_id (s : jsstring) :
  Forall (λ c, isTitleUnit c = true) s → removeSpecial s = s.
Proof.
  unfold removeSpecial, jsstring. induction 1 as [|c s Hc _ IH]; [done|].
  rewrite filter_cons, IH. rewrite decide_True; [done|].
  apply Is_true_true. unfold isTitleUnit in Hc.
  apply orb_true_iff in Hc as [->| ->]; [done | by rewrite orb_true_r].
Qed.

Lemma replaceSpaces_no_space (s : jsstring) (inRun : bool) :
  Forall (λ c, isWhiteSpace c = false) s → replaceSpaces inRun s = s.
Proof.
  intros Hs. revert inRun. induction Hs as [|c s Hc _ IH]; intros inRun; simpl.
  - done.
  - by rewrite Hc, IH.
Qed.

(** X15. Sanitising a title twice gives what sanitising it once gives:
    a resolved title is a fixed point of the chain. *)
Theorem sanitizeTitle_idempotent (stdout : jsstring) :
  sanitizeTitle (sanitizeTitle stdout) = sanitizeTitle stdout.
Proof.
  pose proof (sanitizeTitle_units stdout) as Hu.
  pose proof (sanitizeTitle_length stdout) as Hl.
  assert (Forall (λ c, isWhiteSpace c = false) (sanitizeTitle stdout)) as Hs.
  { eapply Forall_impl; [exact Hu|]. apply titleUnit_not_space. }
  set (t := sanitizeTitle stdout) in *.
  unfold sanitizeTitle at 1. rewrite trim_no_space by done.
  rewrite removeSpecial_units_id by done.
  rewrite replaceSpaces_no_space by done.
  unfold substring0. by apply firstn_all2.
Qed.

End TitleMore.

(** ** A whole attempt *)

Module AttemptMore.

Import Orchestrator OrchestratorFacts DownloadSpec CancellationSpec DownloadMore.

(** The close event with status 0, a produced file and no mark: the exact
    result. *)
Lemma close_success sid ts out p stderr written s :
  fileProduced ts (foldl writeFile (tempDir s) written) = true →
  isCancelled sid s = false →
  ∃ d len,
    fileCheck ts (foldl writeFile (tempDir s) written) = Some d
    ∧ statSize d (expectedMp3 ts) = Some len
    ∧ resume (AwaitClose sid ts (resolveTitle ts out) p)
             (ChildClose (Some 0) stderr written) s
      = (withTemp d (closed sid p written s),
         (Some (Audio (resolveTitle ts out ++ lit ".mp3") len),
          Some (AwaitStream ts))).
Proof.
  intros Hfile Hc. destruct (fileProduced_checked _ _ Hfile) as [d Hd].
  destruct (fileCheck_stat _ _ _ Hd) as [len Hlen].
  exists d, len. split; [done|]. split; [done|].
  rewrite resume_close. unfold afterDownload. rewrite tempDir_closed, Hd.
  cbv zeta. rewrite isCancelled_withTemp, isCancelled_closed, Hc.
  by rewrite encode_filename, Hlen.
Qed.

Lemma feed_step e events s sent k :
  feed (e :: events) s sent (Some k)
  = feed events (resume k e s).1
         (match sent with Some _ => sent | None => (resume k e s).2.1 end)
         (resume k e s).2.2.
Proof. reflexivity. Qed.

(** X16. A request with a url on an unmarked session, whose tool exits
    with status 0 leaving a file under the attempt's prefix, and whose
    stream runs to its end with nothing else happening on the server, is
    answered with audio named after the resolved title; afterwards no file
    is left at the expected path, the session tracks no process, and the
    marks are as before. *)
Theorem attempt_succeeds
  (req : Request) (out : option jsstring) (stderr : jsstring) (written : Dir)
  (s : Server) :
  truthy_opt (url req) = true →
  isCancelled (sessionId req) s = false →
  fileProduced (now s) (foldl writeFile (tempDir s) written) = true →
  ∃ s' len,
    attempt req [TitleQuery out; ChildClose (Some 0) stderr written; StreamEnd] s
    = (s', Some (Audio (resolveTitle (now s) out ++ lit ".mp3") len))
    ∧ (expectedMp3 (now s) ∉ names (tempDir s'))
    ∧ activeProcesses s' !! sessionId req = None
    ∧ cancelledSessions s' = cancelledSessions s.
Proof.
  intros Hurl Hc Hfile.
  set (sid := sessionId req) in *. set (ts := now s) in *.
  set (s1 := if truthy_opt sid
             then withActive (<[sid := nextPid s]> (activeProcesses s))
                             (withNextPid (nextPid s + 1) s)
             else withNextPid (nextPid s + 1) s).
  assert (download req s = (s, (None, Some (AwaitTitle sid ts)))) as Hd.
  { unfold download. fold sid. by rewrite Hurl, Hc. }
  assert (resume (AwaitTitle sid ts) (TitleQuery out) s
          = (s1, (None, Some (AwaitClose sid ts (resolveTitle ts out) (nextPid s)))))
    as Hr1.
  { simpl. rewrite Hc. subst s1. by destruct (truthy_opt sid). }
  assert (tempDir s1 = tempDir s ∧ isCancelled sid s1 = false
          ∧ cancelledSessions s1 = cancelledSessions s) as (Ht1 & Hc1 & Hm1).
  { subst s1. by destruct (truthy_opt sid). }
  rewrite <- Ht1 in Hfile.
  destruct (close_success sid ts out (nextPid s) stderr written s1 Hfile Hc1)
    as (d & len & _ & _ & Hres).
  exists (cleanup ts (withTemp d (closed sid (nextPid s) written s1))), len.
  split; [|split; [|split]].
  - unfold attempt. rewrite Hd. cbn [fst snd].
    rewrite feed_step, Hr1. cbn [fst snd].
    rewrite feed_step, Hres. cbn [fst snd].
    rewrite feed_step. reflexivity.
  - apply cleanupFile_absent.
  - apply lookup_delete_eq.
  - exact Hm1.
Qed.

Definition plainRequest : Request :=
  {| url := Some (lit "https://www.youtube.com/watch?v=1");
     sessionId := Some (lit "s") |}.

Lemma attempt_succeeds_witness :
  ∃ s' len,
    attempt plainRequest
      [TitleQuery (Some (lit "a b")); ChildClose (Some 0) []
         [(expectedMp3 100, 42)]; StreamEnd] (initial 100)
    = (s', Some (Audio (lit "a_b.mp3") len))
    ∧ (expectedMp3 100 ∉ names (tempDir s'))
    ∧ activeProcesses s' !! Some (lit "s") = None
    ∧ cancelledSessions s' = ∅.
Proof.
  apply (attempt_succeeds plainRequest (Some (lit "a b")) []
           [(expectedMp3 100, 42)] (initial 100)); reflexivity.
Defined.

End AttemptMore.

(** ** Batch driver: the summary and cancellation *)

Module BatchDriverMore.

Import BatchDriver BatchDriverSpec.

#[export] Instance Status_eq_dec : EqDecision Status.
Proof. solve_decision. Defined.

(** [links.filter(l => l.status === st).length] *)
Definition count (st : Status) (ls : list Item) : nat :=
  length (filter (λ l, status l = st) ls).

(** The [summary] object (lines 245-250). *)
Record Summary := mkSummary {
  total : nat;
  saved : nat;
  failed : nat;
  cancelled : nat
}.

Definition summary (ls : list Item) : Summary :=
  mkSummary (length ls) (count SAVED ls) (count FAILED ls) (count CANCELLED ls).

(** An item in a terminal status, with the [error] field that goes with
    it: none when saved, a message when failed, ['Cancelled by user'] when
    cancelled. *)
Definition settled (l : Item) : Prop :=
  (status l = SAVED ∧ error l = None)
  ∨ (status l = FAILED ∧ ∃ m, error l = Some m)
  ∨ (status l = CANCELLED ∧ error l = Some cancelledByUser).

(** An item not yet reached by the loop. *)
Definition untouched (l : Item) : Prop := status l = PENDING ∧ error l = None.

(** What a batch never changes. *)
Definition identity (l : Item) : N * jsstring := (row l, link l).

Lemma identity_update index (g : Item → Item) ls :
  (∀ l, identity (g l) = identity l) →
  identity <$> update index g ls = identity <$> ls.
Proof.
  intros Hg. apply list_eq. intros j. rewrite !list_lookup_fmap.
  destruct (decide (j = index)) as [->|Hne].
  - rewrite lookup_update_eq. destruct (ls !! index); simpl; [|done].
    by rewrite Hg.
  - by rewrite lookup_update_ne.
Qed.

(** One call of [downloadSingle], whatever it meets: one request, the
    item settled, the others as they were, and a set cancel flag stays
    set. *)
Lemma downloadSingle_any sessionId item index env s :
  let s1 := downloadSingle sessionId item index env s in
  length (links s1) = length (links s)
  ∧ requests s1 = requests s ++ [requestFor sessionId item]
  ∧ identity <$> links s1 = identity <$> links s
  ∧ (∀ j, j ≠ index → links s1 !! j = links s !! j)
  ∧ (∀ l, links s !! index = Some l → error l = None →
          ∃ l', links s1 !! index = Some l' ∧ settled l').
Proof.
  unfold downloadSingle, settled. simpl.
  destruct (fetched env) as [message|r]; simpl;
    [|destruct (cancelledRef s || cancelDuringFetch env); simpl;
      [|destruct (ok r); simpl; [destruct (blobError env) as [message|]; simpl|]]];
    rewrite ?setStatusError_update, ?setStatus_update;
    (split; [by rewrite ?length_update|]; split; [done|];
     split; [by rewrite ?identity_update|];
     split; [intros j Hj; by rewrite ?lookup_update_ne|];
     intros l Hl Herr; rewrite ?lookup_update_eq, Hl; simpl;
     eexists; split; [reflexivity|]; simpl; by eauto 6).
Qed.

Lemma cancelFrom_lookup i ls j :
  cancelFrom i ls !! j
  = (λ l, if decide (i ≤ j)%nat
          then mkItem (row l) (link l) CANCELLED (Some cancelledByUser)
          else l) <$> ls !! j.
Proof. unfold cancelFrom. by rewrite list_lookup_imap. Qed.

Lemma identity_cancelFrom i ls : identity <$> cancelFrom i ls = identity <$> ls.
Proof.
  apply list_eq. intros j. rewrite !list_lookup_fmap, cancelFrom_lookup.
  destruct (ls !! j); simpl; [|done]. by case_decide.
Qed.

(** The loop, whatever happens: it ends with every item settled, having
    sent requests for a run of consecutive links starting where it
    began. *)
Lemma loop_any sessionId items env :
  ∀ todo i s,
    length (links s) = length items →
    (i + todo = length items)%nat →
    (∀ j l, (j < i)%nat → links s !! j = Some l → settled l) →
    (∀ j l, (i ≤ j)%nat → links s !! j = Some l → untouched l) →
    let s' := loop sessionId items env todo i s in
    (∀ j l, links s' !! j = Some l → settled l)
    ∧ identity <$> links s' = identity <$> links s
    ∧ ∃ m, (m ≤ todo)%nat
           ∧ requests s'
             = requests s ++ (requestFor sessionId <$> take m (drop i items)).
Proof.
  induction todo as [|todo IH]; intros i s Hlen Hi Hdone Hrest; simpl.
  - split; [|split; [done|]].
    + intros j l Hl. apply (Hdone j l); [|done].
      apply lookup_lt_Some in Hl. lia.
    + exists 0%nat. split; [lia|]. rewrite take_0. by rewrite app_nil_r.
  - destruct (cancelledRef s) eqn:Hc.
    + simpl. split; [|split; [apply identity_cancelFrom|]].
      * intros j l. rewrite cancelFrom_lookup.
        destruct (links s !! j) as [l0|] eqn:Hl0; simpl; [|done].
        intros [= <-]. case_decide.
        -- right; right. done.
        -- apply (Hdone j); [lia | done].
      * exists 0%nat. split; [lia|]. rewrite take_0. by rewrite app_nil_r.
    + destruct (items !! i) as [item|] eqn:Hitem;
        [|apply lookup_ge_None in Hitem; lia].
      destruct (downloadSingle_any sessionId item i (env i) s)
        as (Hl1 & Hr1 & Hid1 & Hne1 & Heq1).
      set (s1 := downloadSingle sessionId item i (env i) s) in *.
      set (s2 := if bool_decide (i < length items - 1)%nat && negb (cancelledRef s1)
                 then _ else s1).
      assert (links s2 = links s1 ∧ requests s2 = requests s1) as (Hl2 & Hr2).
      { subst s2. by destruct (_ && _). }
      destruct (IH (S i) s2) as (Hall & Hid & m & Hm & Hreq).
      * by rewrite Hl2, Hl1.
      * lia.
      * intros j l Hj. rewrite Hl2. destruct (decide (j = i)) as [->|Hne].
        -- destruct (links s !! i) as [l0|] eqn:Hl0;
             [|apply lookup_ge_None in Hl0; apply lookup_lt_Some in Hitem; lia].
           destruct (Heq1 l0 eq_refl) as (l' & Hl' & Hs');
             [by apply (Hrest i l0)|].
           rewrite Hl'. by intros [= <-].
        -- rewrite Hne1 by done. apply Hdone. lia.
      * intros j l Hj. rewrite Hl2, Hne1 by lia. apply Hrest. lia.
      * split; [exact Hall|]. split; [by rewrite Hid, Hl2|].
        exists (S m). split; [lia|].
        rewrite Hreq, Hr2, Hr1, <- app_assoc. f_equal.
        by rewrite (drop_S _ _ _ Hitem).
Qed.

Lemma startProcessing_any sessionId c env s :
  let s' := startProcessing sessionId c env s in
  links s ≠ [] →
  (∀ j l, links s' !! j = Some l → settled l)
  ∧ identity <$> links s' = identity <$> links s
  ∧ ∃ m, (m ≤ length (links s))%nat
         ∧ requests s' = requests s ++ (requestFor sessionId <$> take m (links s)).
Proof.
  intros s' Hne. subst s'. unfold startProcessing.
  destruct (links s) as [|l0 ls] eqn:Hlinks; [done|]. rewrite <- Hlinks in *.
  set (s0 := mkState _ c (requests s) (delays s)).
  destruct (loop_any sessionId (links s) env (length (links s)) 0 s0)
    as (Hall & Hid & m & Hm & Hreq).
  - subst s0. simpl. by rewrite length_fmap.
  - done.
  - intros j l Hj. lia.
  - intros j l _. subst s0. simpl. rewrite list_lookup_fmap.
    destruct (links s !! j); simpl; [|done]. by intros [= <-].
  - split; [exact Hall|]. split.
    + rewrite Hid. subst s0. simpl. rewrite <- list_fmap_compose.
      by apply list_fmap_ext.
    + exists m. split; [done|]. by rewrite Hreq.
Qed.

Lemma count_cons st l ls :
  count st (l :: ls) = ((if decide (status l = st) then 1 else 0) + count st ls)%nat.
Proof. unfold count. rewrite filter_cons. by case_decide. Qed.

Lemma settled_counts (ls : list Item) :
  Forall settled ls →
  (count SAVED ls + count FAILED ls + count CANCELLED ls = length ls)%nat.
Proof.
  induction 1 as [|l ls Hl _ IH]; [done|]. rewrite !count_cons. simpl.
  destruct Hl as [[Hs _]|[[Hs _]|[Hs _]]]; rewrite Hs;
    repeat case_decide; try done; lia.
Qed.

Lemma startProcessing_settled sessionId c env s :
  links s ≠ [] → Forall settled (links (startProcessing sessionId c env s)).
Proof.
  intros Hne. destruct (startProcessing_any sessionId c env s Hne) as (Hall & _).
  apply Forall_lookup. intros j l. apply Hall.
Qed.

(** [failedDownloads] (line 253) *)
Definition failedDownloads (ls : list Item) : list Item :=
  filter (λ l, status l = FAILED) ls.

(** X17. Whatever the responses and whenever the user cancels, a batch
    ends with every link saved, failed or cancelled, with the [error]
    field that goes with the status: none when saved, a message when
    failed, ['Cancelled by user'] when cancelled; so every entry of the
    failed-downloads list has a message to show. *)
Theorem batch_ends_settled
  (sessionId : jsstring) (cancelDuringClear : bool) (env : nat → Env) (s : State) :
  links s ≠ [] →
  let ls := links (startProcessing sessionId cancelDuringClear env s) in
  Forall settled ls
  ∧ Forall (λ l, ∃ m, error l = Some m) (failedDownloads ls).
Proof.
  intros Hne ls.
  pose proof (startProcessing_settled sessionId cancelDuringClear env s Hne)
    as Hall.
  split; [exact Hall|]. apply Forall_forall. intros l Hl.
  apply list_elem_of_filter in Hl as [Hf Hin].
  rewrite Forall_forall in Hall.
  destruct (Hall l Hin) as [[Hs _]|[[_ Hm]|[Hs _]]]; [congruence | done | congruence].
Qed.

(** X18. After a batch the summary adds up: saved, failed and cancelled
    links together are all the links. *)
Theorem summary_adds_up
  (sessionId : jsstring) (cancelDuringClear : bool) (env : nat → Env) (s : State) :
  links s ≠ [] →
  let sm := summary (links (startProcessing sessionId cancelDuringClear env s)) in
  (saved sm + failed sm + cancelled sm = total sm)%nat
  ∧ total sm = length (links s).
Proof.
  intros Hne sm. subst sm. simpl. split.
  - apply settled_counts. by apply startProcessing_settled.
  - destruct (startProcessing_any sessionId cancelDuringClear env s Hne)
      as (_ & Hid & _).
    apply (f_equal length) in Hid. by rewrite !length_fmap in Hid.
Qed.

(** X19. Whatever happens, a batch sends its download requests for an
    initial run of the links, one request per link, in order, each with
    the link as url and the session identifier; and it changes no row
    number and no link. *)
Theorem batch_requests_prefix
  (sessionId : jsstring) (cancelDuringClear : bool) (env : nat → Env) (s : State) :
  let s' := startProcessing sessionId cancelDuringClear env s in
  (∃ m, (m ≤ length (links s))%nat
        ∧ requests s' = requests s ++ (requestFor sessionId <$> take m (links s)))
  ∧ identity <$> links s' = identity <$> links s.
Proof.
  intros s'. destruct (links s) as [|l0 ls] eqn:Hlinks.
  - subst s'. unfold startProcessing. rewrite Hlinks. split; [|by rewrite Hlinks].
    exists 0%nat. split; [done|]. by rewrite app_nil_r.
  - assert (links s ≠ []) as Hne by by rewrite Hlinks.
    destruct (startProcessing_any sessionId cancelDuringClear env s Hne)
      as (_ & Hid & Hreq).
    rewrite <- Hlinks. by split.
Qed.

(** Two links; the network fails on every request and the user cancels
    during the first one. *)
Definition twoPending : State :=
  mkState [ mkItem 2 (lit "https://youtu.be/a") PENDING None;
            mkItem 3 (lit "https://youtu.be/b") PENDING None ] false [] 0.

Definition offline (i : nat) : Env :=
  mkEnv (Rejected (lit "Failed to fetch")) (bool_decide (i = 0%nat)) None false false.

Lemma batch_ends_settled_witness :
  Forall settled (links (startProcessing (lit "s") false offline twoPending)).
Proof.
  apply (batch_ends_settled (lit "s") false offline twoPending). discriminate.
Defined.

Lemma summary_adds_up_witness :
  total (summary (links (startProcessing (lit "s") false offline twoPending)))
  = 2%nat.
Proof.
  apply (summary_adds_up (lit "s") false offline twoPending). discriminate.
Defined.

(** *** Cancelling a batch *)

(** Nobody presses cancel before the loop reaches link [k]. *)
Definition quietBefore (env : nat → Env) (k : nat) : Prop :=
  ∀ j, (j < k)%nat →
       cancelDuringFetch (env j) = false ∧ cancelDuringBody (env j) = false
       ∧ cancelDuringDelay (env j) = false.

(** The loop up to link [k] while nobody cancels: it arrives at [k] with
    the earlier links settled by their own responses and the later ones
    untouched. *)
Lemma loop_quiet_prefix sessionId items env k :
  quietBefore env k →
  (k < length items)%nat →
  ∀ todo i s,
    (i ≤ k)%nat →
    cancelledRef s = false →
    length (links s) = length items →
    (i + todo = length items)%nat →
    ∃ sk,
      loop sessionId items env todo i s
      = loop sessionId items env (length items - k) k sk
      ∧ cancelledRef sk = false
      ∧ length (links sk) = length items
      ∧ requests sk
        = requests s ++ (requestFor sessionId <$> take (k - i) (drop i items))
      ∧ (∀ j, (j < i ∨ k ≤ j)%nat → links sk !! j = links s !! j)
      ∧ (∀ j, (i ≤ j < k)%nat →
              status <$> links sk !! j = Some (outcome (env j))).
Proof.
  intros Hquiet Hk. induction todo as [|todo IH]; intros i s Hi Hc Hlen Hsum.
  - lia.
  - destruct (decide (i = k)) as [->|Hne].
    + exists s. replace (length items - k)%nat with (S todo) by lia.
      repeat split; try done.
      * rewrite Nat.sub_diag, take_0. by rewrite app_nil_r.
      * intros j Hj. lia.
    + simpl. rewrite Hc.
      destruct (items !! i) as [item|] eqn:Hitem;
        [|apply lookup_ge_None in Hitem; lia].
      destruct (Hquiet i) as (Hf & Hb & Hd); [lia|].
      destruct (downloadSingle_quiet sessionId item i (env i) s Hc Hf Hb)
        as (Hc1 & Hr1 & _ & Hl1 & Hne1 & Heq1).
      set (s1 := downloadSingle sessionId item i (env i) s) in *.
      set (s2 := if bool_decide (i < length items - 1)%nat && negb (cancelledRef s1)
                 then _ else s1).
      assert (cancelledRef s2 = false ∧ links s2 = links s1
              ∧ requests s2 = requests s1) as (Hc2 & Hl2 & Hr2).
      { subst s2. destruct (_ && _); simpl; [|done]. by rewrite Hc1, Hd. }
      destruct (IH (S i) s2) as (sk & Heq & Hck & Hlk & Hrk & Hsame & Hst);
        [lia | done | by rewrite Hl2, Hl1 | lia |].
      exists sk. repeat split; try done.
      * rewrite Hrk, Hr2, Hr1, <- app_assoc. f_equal.
        replace (k - i)%nat with (S (k - S i)) by lia.
        by rewrite (drop_S _ _ _ Hitem).
      * intros j Hj. rewrite Hsame, Hl2 by lia. apply Hne1. lia.
      * intros j [Hj1 Hj2]. destruct (decide (j = i)) as [->|Hji].
        -- rewrite Hsame, Hl2 by lia. apply Heq1. lia.
        -- apply Hst. lia.
Qed.

(** The first turn of the loop when the cancel flag is set. *)
Lemma loop_cancelled sessionId items env todo i s :
  cancelledRef s = true →
  loop sessionId items env (S todo) i s
  = mkState (cancelFrom i (links s)) true (requests s) (delays s).
Proof. intros Hc. simpl. by rewrite Hc. Qed.

Lemma status_cancelFrom i ls j :
  (j < length ls)%nat →
  status <$> cancelFrom i ls !! j
  = if decide (i ≤ j)%nat then Some CANCELLED else status <$> ls !! j.
Proof.
  intros Hj. rewrite cancelFrom_lookup.
  destruct (lookup_lt_is_Some_2 ls j Hj) as [l ->]. simpl. by case_decide.
Qed.

(** X20. When the user cancels during the pause after link [k], nobody
    having cancelled before, the batch has sent requests for links 0 to
    [k] only, each of those links ends with the status its own response
    gives it, and every later link ends cancelled. *)
Theorem cancel_during_pause
  (sessionId : jsstring) (env : nat → Env) (s : State) (k : nat) :
  quietBefore env k →
  cancelDuringFetch (env k) = false →
  cancelDuringBody (env k) = false →
  cancelDuringDelay (env k) = true →
  (k < length (links s) - 1)%nat →
  let s' := startProcessing sessionId false env s in
  requests s' = requests s ++ (requestFor sessionId <$> take (S k) (links s))
  ∧ (∀ j, (j ≤ k)%nat → status <$> links s' !! j = Some (outcome (env j)))
  ∧ (∀ j, (k < j < length (links s))%nat →
          status <$> links s' !! j = Some CANCELLED).
Proof.
  intros Hquiet Hf Hb Hd Hk s'. subst s'. unfold startProcessing.
  destruct (links s) as [|l0 ls] eqn:Hlinks; [simpl in Hk; lia|].
  rewrite <- Hlinks in *.
  set (s0 := mkState _ false (requests s) (delays s)).
  destruct (loop_quiet_prefix sessionId (links s) env k Hquiet ltac:(lia)
              (length (links s)) 0 s0)
    as (sk & -> & Hck & Hlk & Hrk & Hsame & Hst);
    [lia | done | by subst s0; simpl; rewrite length_fmap | done |].
  replace (length (links s) - k)%nat with (S (S (length (links s) - k - 2)))
    by lia.
  destruct (links s !! k) as [item|] eqn:Hitem;
    [|apply lookup_ge_None in Hitem; lia].
  destruct (downloadSingle_quiet sessionId item k (env k) sk Hck Hf Hb)
    as (Hc1 & Hr1 & _ & Hl1 & Hne1 & Heq1).
  change (loop sessionId (links s) env (S (S (length (links s) - k - 2))) k sk)
    with (if cancelledRef sk
          then mkState (cancelFrom k (links sk)) (cancelledRef sk)
                       (requests sk) (delays sk)
          else match links s !! k with
               | None => sk
               | Some item =>
                   let s1 := downloadSingle sessionId item k (env k) sk in
                   let s2 :=
                     if bool_decide (k < length (links s) - 1)%nat
                        && negb (cancelledRef s1)
                     then mkState (links s1)
                                  (cancelledRef s1 || cancelDuringDelay (env k))
                                  (requests s1) (S (delays s1))
                     else s1 in
                   loop sessionId (links s) env (S (length (links s) - k - 2))
                        (S k) s2
               end).
  rewrite Hck, Hitem. cbv zeta.
  rewrite bool_decide_eq_true_2 by done. rewrite Hc1, Hd. simpl andb. cbv iota.
  rewrite loop_cancelled by done. simpl links. simpl requests.
  split; [|split].
  - rewrite Hr1, Hrk, <- app_assoc. f_equal. rewrite Nat.sub_0_r, drop_0.
    rewrite (take_S_r _ _ _ Hitem), fmap_app. done.
  - intros j Hj. rewrite status_cancelFrom by lia.
    rewrite decide_False by lia.
    destruct (decide (j = k)) as [->|Hjk]; [apply Heq1; lia|].
    rewrite Hne1 by done. apply Hst. lia.
  - intros j Hj. rewrite status_cancelFrom by lia. by rewrite decide_True by lia.
Qed.

(** The user cancels during the pause after the first link. *)
Definition pressAfterFirst (i : nat) : Env :=
  mkEnv (Responded (Orchestrator.Audio (lit "song.mp3") 10)) false None false
        (bool_decide (i = 0%nat)).

Lemma cancel_during_pause_witness :
  status <$> links (startProcessing (lit "s") false pressAfterFirst twoPending)
  = [SAVED; CANCELLED]
  ∧ length (requests (startProcessing (lit "s") false pressAfterFirst twoPending))
    = 1%nat.
Proof.
  destruct (cancel_during_pause (lit "s") pressAfterFirst twoPending 0)
    as (Hreq & _ & _).
  - intros j Hj. lia.
  - reflexivity.
  - reflexivity.
  - reflexivity.
  - simpl. lia.
  - split; [reflexivity|]. rewrite Hreq. reflexivity.
Defined.

Lemma loop_step sessionId items env todo i s item :
  cancelledRef s = false →
  items !! i = Some item →
  loop sessionId items env (S todo) i s
  = loop sessionId items env todo (S i)
      (let s1 := downloadSingle sessionId item i (env i) s in
       if bool_decide (i < length items - 1)%nat && negb (cancelledRef s1)
       then mkState (links s1) (cancelledRef s1 || cancelDuringDelay (env i))
                    (requests s1) (S (delays s1))
       else s1).
Proof. intros Hc Hitem. simpl. by rewrite Hc, Hitem. Qed.

(** [downloadSingle] when the user cancels while the request is awaited:
    a response, whatever it is, is discarded and the link is cancelled; a
    network failure still marks it failed. *)
Lemma downloadSingle_cancelled sessionId item index env s :
  cancelDuringFetch env = true →
  let s1 := downloadSingle sessionId item index env s in
  cancelledRef s1 = true
  ∧ requests s1 = requests s ++ [requestFor sessionId item]
  ∧ length (links s1) = length (links s)
  ∧ (∀ j, j ≠ index → links s1 !! j = links s !! j)
  ∧ ((index < length (links s))%nat →
     status <$> links s1 !! index
     = Some (match fetched env with
             | Rejected _ => FAILED
             | Responded _ => CANCELLED
             end)).
Proof.
  intros Hf. unfold downloadSingle. simpl. rewrite Hf, orb_true_r.
  assert ((index < length (links s))%nat → ∃ l, links s !! index = Some l) as Hex.
  { intros Hlt. by apply lookup_lt_is_Some. }
  destruct (fetched env) as [message|r]; simpl;
    rewrite ?setStatusError_update, ?setStatus_update;
    (repeat split; rewrite ?length_update; try done;
     [ intros j Hj; by rewrite !lookup_update_ne
     | intros Hlt; destruct (Hex Hlt) as [l Hl];
       by rewrite !lookup_update_eq, Hl ]).
Qed.

(** X21. When the user cancels while the request for link [k] is
    awaited, nobody having cancelled before, the answer to that request is
    discarded: link [k] ends cancelled whatever the server answered (failed
    if the request itself was rejected), no further request is sent, the
    earlier links keep the status of their own responses and the later
    ones end cancelled. *)
Theorem cancel_during_fetch
  (sessionId : jsstring) (env : nat → Env) (s : State) (k : nat) :
  quietBefore env k →
  cancelDuringFetch (env k) = true →
  (k < length (links s))%nat →
  let s' := startProcessing sessionId false env s in
  requests s' = requests s ++ (requestFor sessionId <$> take (S k) (links s))
  ∧ (∀ j, (j < k)%nat → status <$> links s' !! j = Some (outcome (env j)))
  ∧ status <$> links s' !! k
    = Some (match fetched (env k) with
            | Rejected _ => FAILED
            | Responded _ => CANCELLED
            end)
  ∧ (∀ j, (k < j < length (links s))%nat →
          status <$> links s' !! j = Some CANCELLED).
Proof.
  intros Hquiet Hf Hk s'. subst s'. unfold startProcessing.
  destruct (links s) as [|l0 ls] eqn:Hlinks; [simpl in Hk; lia|].
  rewrite <- Hlinks in *.
  set (s0 := mkState _ false (requests s) (delays s)).
  destruct (loop_quiet_prefix sessionId (links s) env k Hquiet Hk
              (length (links s)) 0 s0)
    as (sk & -> & Hck & Hlk & Hrk & Hsame & Hst);
    [lia | done | by subst s0; simpl; rewrite length_fmap | done |].
  destruct (links s !! k) as [item|] eqn:Hitem;
    [|apply lookup_ge_None in Hitem; lia].
  destruct (downloadSingle_cancelled sessionId item k (env k) sk Hf)
    as (Hc1 & Hr1 & Hl1 & Hne1 & Heq1).
  assert (requests sk ++ [requestFor sessionId item]
          = requests s ++ (requestFor sessionId <$> take (S k) (links s)))
    as Hreq.
  { rewrite Hrk, <- app_assoc. f_equal. rewrite Nat.sub_0_r, drop_0.
    by rewrite (take_S_r _ _ _ Hitem), fmap_app. }
  replace (length (links s) - k)%nat with (S (length (links s) - k - 1)) by lia.
  rewrite (loop_step _ _ _ _ _ _ item) by done. cbv zeta.
  rewrite Hc1, andb_false_r.
  destruct (length (links s) - k - 1)%nat as [|rest] eqn:Hrest.
  - simpl loop. rewrite Hr1. split; [done|]. split; [|split].
    + intros j Hj. rewrite Hne1 by lia. apply Hst. lia.
    + apply Heq1. lia.
    + intros j Hj. lia.
  - rewrite loop_cancelled by done. simpl links. simpl requests.
    rewrite Hr1. split; [done|]. split; [|split].
    + intros j Hj. rewrite status_cancelFrom by lia.
      rewrite decide_False by lia. rewrite Hne1 by lia. apply Hst. lia.
    + rewrite status_cancelFrom by lia. rewrite decide_False by lia.
      apply Heq1. lia.
    + intros j Hj. rewrite status_cancelFrom by lia.
      by rewrite decide_True by lia.
Qed.

(** The user cancels while the first request is awaited; the server
    answers with audio all the same. *)
Definition pressDuringFirst (i : nat) : Env :=
  mkEnv (Responded (Orchestrator.Audio (lit "song.mp3") 10))
        (bool_decide (i = 0%nat)) None false false.

Lemma cancel_during_fetch_witness :
  status <$> links (startProcessing (lit "s") false pressDuringFirst twoPending)
  = [CANCELLED; CANCELLED]
  ∧ length (requests (startProcessing (lit "s") false pressDuringFirst twoPending))
    = 1%nat.
Proof.
  destruct (cancel_during_fetch (lit "s") pressDuringFirst twoPending 0)
    as (Hreq & _ & _).
  - intros j Hj. lia.
  - reflexivity.
  - simpl. lia.
  - split; [reflexivity|]. rewrite Hreq. reflexivity.
Defined.

Lemma loop_quiet_delays sessionId items env :
  neverCancelled env →
  ∀ todo i s,
    cancelledRef s = false →
    (i + todo = length items)%nat →
    delays (loop sessionId items env todo i s) = (delays s + pred todo)%nat.
Proof.
  intros Hquiet. induction todo as [|todo IH]; intros i s Hc Hi.
  - simpl. lia.
  - destruct (items !! i) as [item|] eqn:Hitem;
      [|apply lookup_ge_None in Hitem; lia].
    rewrite (loop_step _ _ _ _ _ _ item) by done. cbv zeta.
    destruct (Hquiet i) as (Hf & Hb & Hd).
    destruct (downloadSingle_quiet sessionId item i (env i) s Hc Hf Hb)
      as (Hc1 & _ & Hd1 & _).
    rewrite Hc1. simpl negb. rewrite andb_true_r.
    case_bool_decide as Hlast.
    + rewrite IH; [|by simpl; rewrite Hd | lia]. simpl delays. rewrite Hd1.
      destruct todo; [lia|]. simpl. lia.
    + rewrite IH; [|done | lia]. rewrite Hd1.
      assert (todo = 0%nat) as -> by lia. simpl. lia.
Qed.

(** X22. A batch that nobody cancels pauses once between consecutive
    links and not after the last one: one pause fewer than there are
    links. *)
Theorem quiet_batch_pauses
  (sessionId : jsstring) (env : nat → Env) (s : State) :
  neverCancelled env →
  links s ≠ [] →
  delays (startProcessing sessionId false env s)
  = (delays s + (length (links s) - 1))%nat.
Proof.
  intros Hquiet Hne. unfold startProcessing.
  destruct (links s) as [|l0 ls] eqn:Hlinks; [done|]. rewrite <- Hlinks.
  rewrite (loop_quiet_delays sessionId (links s) env Hquiet); [|done|done].
  simpl. lia.
Qed.

Definition allSaved (i : nat) : Env :=
  mkEnv (Responded (Orchestrator.Audio (lit "song.mp3") 10)) false None false false.

Lemma quiet_batch_pauses_witness :
  delays (startProcessing (lit "s") false allSaved twoPending) = 1%nat.
Proof.
  rewrite (quiet_batch_pauses (lit "s") allSaved twoPending);
    [reflexivity | by intros i | discriminate].
Defined.

End BatchDriverMore.

(** ** Upload: [handleFileUpload] of [App.jsx], and the whole pipeline *)

Module Upload.

Import BatchDriver.

(** [s.endsWith(suffix)] *)
Definition endsWith (s suffix : jsstring) : bool :=
  startsWith (rev s) (rev suffix).

(** What the upload request gives: a rejection (the network failed) or the
    server's answer, read as JSON. *)
Inductive Parsed :=
| ParseRejected
| ParseResponded (data : LinkExtractor.Response).

(** [data.success], [undefined] read as false. *)
Definition success (data : LinkExtractor.Response) : bool :=
  match data with
  | LinkExtractor.Json b _ _ => b
  | _ => false
  end.

(** [`Error parsing CSV: ${data.error}`] *)
Definition parseAlert (data : LinkExtractor.Response) : jsstring :=
  lit "Error parsing CSV: "
  ++ match data with
     | LinkExtractor.Status400 e => e
     | LinkExtractor.Status500 e _ => e
     | LinkExtractor.Json _ _ _ => lit "undefined"
     end.

(** [data.links.map(item => ({...item, status: STATUS.PENDING, error: null}))] *)
Definition initialize (data : LinkExtractor.Response) : list Item :=
  match data with
  | LinkExtractor.Json _ ls _ =>
      (λ l, mkItem (LinkExtractor.row l) (LinkExtractor.link l) PENDING None) <$> ls
  | _ => []
  end.

(** [handleFileUpload] (lines 43-90); [file] is the name of
    [event.target.files[0]], [None] when no file was chosen.  The result is
    the new state and the text of the alert shown, if any. *)
Definition handleFileUpload (file : option jsstring) (parsed : Parsed) (s : State)
  : State * option jsstring :=
  match file with
  | None => (s, None)
  | Some name =>
      if negb (endsWith name (lit ".csv")) then
        (s, Some (lit "Please upload a CSV file"))
      else
        let s0 := mkState (links s) false (requests s) (delays s) in
        match parsed with
        | ParseRejected =>
            (s0, Some (lit "Failed to upload and parse CSV file"))
        | ParseResponded data =>
            if success data
            then (mkState (initialize data) false (requests s) (delays s), None)
            else (s0, Some (parseAlert data))
        end
  end.

End Upload.

Module PipelineSpec.

Import LinkExtractor BatchDriver Upload.

(** The request the driver sends for a link record of the extractor. *)
Definition requestOf (sessionId : jsstring) (l : LinkRecord) : Orchestrator.Request :=
  Orchestrator.Build_Request (Some (LinkExtractor.link l)) (Some sessionId).

Section Pipeline.

Variable toUpperCase : jsstring -> jsstring.

(** X23. From the CSV to the download requests: for a file named
    [*.csv] whose header has a LINKS column and that the parser reads to
    the end, the upload fills the queue with the qualifying rows, all
    pending, and a batch that nobody cancels then sends exactly one
    download request per qualifying row, in CSV order, with the trimmed
    link as url. *)
Theorem csv_to_requests
  (header : list jsstring) (rows : list record) (name sessionId : jsstring)
  (env : nat → Env) (s : State) :
  toUpperCase [] = [] →
  (∃ k, k ∈ header ∧ toUpperCase k = LINKS) →
  Forall (λ r, keys r = header) rows →
  endsWith name (lit ".csv") = true →
  neverCancelled env →
  let uploaded :=
    handleFileUpload (Some name)
      (ParseResponded (parse_csv toUpperCase (Some (yields rows Done)))) s in
  let s' := startProcessing sessionId false env uploaded.1 in
  uploaded.2 = None
  ∧ links uploaded.1
    = (λ l, mkItem (LinkExtractor.row l) (LinkExtractor.link l) PENDING None)
        <$> spec_links toUpperCase header rows
  ∧ requests s'
    = requests s ++ (requestOf sessionId <$> spec_links toUpperCase header rows).
Proof.
  intros Hnil Hex Hrows Hname Hquiet uploaded s'.
  destruct (LinkExtractorSpec.find_isLinks_some toUpperCase header Hex)
    as (col & Hfind & Hup).
  assert (truthy col = true) as Hcol.
  { destruct col; [|done]. rewrite Hnil in Hup. discriminate. }
  assert (parse_csv toUpperCase (Some (yields rows Done))
          = Json true (spec_links toUpperCase header rows)
                 (length (spec_links toUpperCase header rows))) as Hparse.
  { unfold parse_csv, spec_links. rewrite Hfind.
    by rewrite (LinkExtractorSpec.consume_yields_done toUpperCase col header). }
  assert (uploaded
          = (mkState ((λ l, mkItem (LinkExtractor.row l) (LinkExtractor.link l) PENDING None)
                        <$> spec_links toUpperCase header rows)
                     false (requests s) (delays s), None)) as Hu.
  { subst uploaded. unfold handleFileUpload. rewrite Hname, Hparse. done. }
  split; [by rewrite Hu|]. split; [by rewrite Hu|].
  subst s'. rewrite Hu. simpl fst. unfold startProcessing. simpl links.
  destruct (spec_links toUpperCase header rows) as [|l0 ls] eqn:Hlinks.
  - simpl. by rewrite app_nil_r.
  - rewrite <- Hlinks.
    set (items := (λ l, mkItem (LinkExtractor.row l) (LinkExtractor.link l) PENDING None)
                    <$> spec_links toUpperCase header rows).
    destruct (items) as [|i0 others] eqn:Hitems;
      [by subst items; rewrite Hlinks in Hitems|].
    rewrite <- Hitems.
    set (s0 := mkState ((λ l : Item, mkItem (row l) (link l) PENDING None)
                          <$> items) false (requests s) (delays s)).
    change (requests (loop sessionId items env (length items) 0 s0)
            = requests s
              ++ (requestOf sessionId <$> spec_links toUpperCase header rows)).
    destruct (BatchDriverSpec.loop_quiet sessionId items env Hquiet
                (length items) 0 s0) as (_ & Hr & _);
      [done | by subst s0; simpl; rewrite length_fmap | done |].
    rewrite Hr. simpl. f_equal. rewrite drop_0. subst items.
    rewrite <- list_fmap_compose. by apply list_fmap_ext.
Qed.

(** X24. When the parser throws on the uploaded CSV, the page shows
    [Error parsing CSV: Failed to parse CSV file], without the parser's
    own message, and the queue keeps the links it had before. *)
Theorem malformed_upload_keeps_queue
  (rows : list record) (message name : jsstring) (s : State) :
  endsWith name (lit ".csv") = true →
  let uploaded :=
    handleFileUpload (Some name)
      (ParseResponded (parse_csv toUpperCase (Some (yields rows (Throw message)))))
      s in
  uploaded.2 = Some (lit "Error parsing CSV: Failed to parse CSV file")
  ∧ links uploaded.1 = links s
  ∧ cancelledRef uploaded.1 = false.
Proof.
  intros Hname uploaded. subst uploaded. unfold handleFileUpload, parse_csv.
  rewrite Hname, LinkExtractorSpec.consume_yields_throw. done.
Qed.

End Pipeline.

Definition csvRows : list record :=
  [ [(lit "LINKS", lit "https://youtu.be/abc ")];
    [(lit "LINKS", lit "not a link")] ].

Definition emptyState : State := mkState [] false [] 0.

Definition everySaved (i : nat) : Env :=
  mkEnv (Responded (Orchestrator.Audio (lit "song.mp3") 10)) false None false false.

Lemma csv_to_requests_witness :
  requests
    (startProcessing (lit "s") false everySaved
       (handleFileUpload (Some (lit "songs.csv"))
          (ParseResponded (parse_csv asciiUpper (Some (yields csvRows Done))))
          emptyState).1)
  = [Orchestrator.Build_Request (Some (lit "https://youtu.be/abc"))
                                (Some (lit "s"))].
Proof.
  destruct (csv_to_requests asciiUpper [lit "LINKS"] csvRows (lit "songs.csv")
              (lit "s") everySaved emptyState) as (_ & _ & Hreq).
  - reflexivity.
  - exists (lit "LINKS"). split; [apply list_elem_of_here | reflexivity].
  - repeat constructor.
  - reflexivity.
  - by intros i.
  - rewrite Hreq. reflexivity.
Defined.

Lemma malformed_upload_keeps_queue_witness :
  (handleFileUpload (Some (lit "songs.csv"))
     (ParseResponded
        (parse_csv asciiUpper
           (Some (yields csvRows (Throw (lit "Invalid Record Length"))))))
     emptyState).2
  = Some (lit "Error parsing CSV: Failed to parse CSV file").
Proof.
  apply (malformed_upload_keeps_queue asciiUpper csvRows
           (lit "Invalid Record Length") (lit "songs.csv") emptyState).
  reflexivity.
Defined.

End PipelineSpec.
